(** * jsdc-cfp-server: activity service, login service and permission guard

  A shallow embedding of the NestJS services of the repository:
  [ActivityService] (activity.service.ts), [AuthService]
  (auth.service.ts) and [PermissionGuard] (permission.guard.ts),
  together with the part of the Prisma store they read and write.

  Conventions of the embedding.
  - A JavaScript [Date] is represented by its time value in
    milliseconds (a [Z]); relational operators on dates compare these
    time values.  [Invalid Date] (time value NaN) is outside the model.
  - Strings are [string]; [toLowerCase] is modelled on ASCII letters.
  - A value that may be [undefined], [null] or present is an
    [Optional]; where the code only tests truthiness, [option] is used
    and [None] stands for both [undefined] and [null].
  - A method that throws returns [inl e]; [await]ed store calls run in
    a state-and-exception monad over the tables of the store.
  - The columns [createdAt] and [updatedAt] are not represented. *)

From Stdlib Require Import ZArith List String Ascii Bool Lia DecimalString.
Import ListNotations.

Local Open Scope string_scope.
Local Open Scope Z_scope.
Local Open Scope list_scope.

(** ** JavaScript values and built-ins used by the services *)

Module Js.

Definition Date := Z.

Inductive Optional (A : Type) : Type :=
| undefined : Optional A
| null : Optional A
| defined (a : A) : Optional A.
Arguments undefined {A}.
Arguments null {A}.
Arguments defined {A} a.

(** Truthiness.  A [Date] object and an array are always truthy, a
    string is truthy when it is not empty. *)
Class Truthy (A : Type) := truthy : A -> bool.

#[export] Instance Truthy_string : Truthy string :=
  fun s => match s with EmptyString => false | String _ _ => true end.
#[export] Instance Truthy_Date : Truthy Date := fun _ => true.
#[export] Instance Truthy_array {A} : Truthy (list A) := fun _ => true.
#[export] Instance Truthy_option {A} `{Truthy A} : Truthy (option A) :=
  fun o => match o with Some a => truthy a | None => false end.
#[export] Instance Truthy_Optional {A} `{Truthy A} : Truthy (Optional A) :=
  fun o => match o with defined a => truthy a | _ => false end.

(** [x || d] where [x] may be missing. *)
Definition or_else {A} `{Truthy A} (x : option A) (d : A) : A :=
  match x with
  | Some a => if truthy a then a else d
  | None => d
  end.

(** [x || y] *)
Definition or_ {A} `{Truthy A} (x y : A) : A := if truthy x then x else y.

(** A stored nullable column seen as a JavaScript value. *)
Definition of_nullable {A} (o : option A) : Optional A :=
  match o with Some a => defined a | None => null end.

(** [x || null] for a nullable column. *)
Definition or_null {A} `{Truthy A} (x : Optional A) : option A :=
  match x with
  | defined a => if truthy a then Some a else None
  | _ => None
  end.

(** [x] where [x] is known not to be [undefined]. *)
Definition to_nullable {A} (x : Optional A) : option A :=
  match x with defined a => Some a | _ => None end.

(** [Array.prototype.includes] on an array of strings. *)
Definition includes (l : list string) (x : string) : bool :=
  existsb (String.eqb x) l.

(** [Array.prototype.indexOf]: first position of [x], or [-1]. *)
Fixpoint indexOf (l : list string) (x : string) : Z :=
  match l with
  | [] => -1
  | y :: l' =>
      if String.eqb y x then 0
      else let i := indexOf l' x in if i <? 0 then -1 else i + 1
  end.

(** [Array.prototype.filter] with the two-argument callback
    [(element, index)]. *)
Fixpoint filter_from {A} (p : A -> Z -> bool) (i : Z) (l : list A) : list A :=
  match l with
  | [] => []
  | x :: l' =>
      if p x i then x :: filter_from p (i + 1) l' else filter_from p (i + 1) l'
  end.

Definition filteri {A} (p : A -> Z -> bool) (l : list A) : list A :=
  filter_from p 0 l.

(** [Array.prototype.every]. *)
Definition every {A} (p : A -> bool) (l : list A) : bool := forallb p l.

(** [Array.prototype.some]. *)
Definition some {A} (p : A -> bool) (l : list A) : bool := existsb p l.

(** [Array.prototype.join]. *)
Fixpoint join (sep : string) (l : list string) : string :=
  match l with
  | [] => EmptyString
  | [x] => x
  | x :: l' => x ++ sep ++ join sep l'
  end.

(** [String.prototype.toLowerCase], on ASCII letters. *)
Definition lower_ascii (c : ascii) : ascii :=
  let n := nat_of_ascii c in
  if ((65 <=? n) && (n <=? 90))%nat then ascii_of_nat (n + 32) else c.

Fixpoint toLowerCase (s : string) : string :=
  match s with
  | EmptyString => EmptyString
  | String c s' => String (lower_ascii c) (toLowerCase s')
  end.

(** [s.split(sep)[0]] for a one-character separator: the part of [s]
    before the first [sep], all of [s] when there is none. *)
Fixpoint split_head (sep : ascii) (s : string) : string :=
  match s with
  | EmptyString => EmptyString
  | String c s' => if Ascii.eqb c sep then EmptyString else String c (split_head sep s')
  end.

(** [String(n)] for an integer [n]. *)
Definition String_of (n : Z) : string := NilZero.string_of_int (Z.to_int n).

(** A [Set<string>]: the elements in insertion order. *)
Definition StringSet := list string.

Definition Set_new : StringSet := [].

Definition Set_add (s : StringSet) (x : string) : StringSet :=
  if includes s x then s else s ++ [x].

Definition Array_from (s : StringSet) : list string := s.

End Js.
Export Js.

(** ** Exceptions thrown by the services *)

Module Http.

(** The Nest exception classes used by the services, a plain [Error],
    and a thrown value that is not an [Error] instance. *)
Inductive Exception : Type :=
| BadRequestException (message : string)
| ConflictException (message : string)
| NotFoundException (message : string)
| UnauthorizedException (message : string)
| Error (message : string)
| NonError (value : string).

(** [error instanceof UnauthorizedException] *)
Definition is_UnauthorizedException (e : Exception) : bool :=
  match e with UnauthorizedException _ => true | _ => false end.

(** [error instanceof Error]: every Nest exception extends [Error]. *)
Definition is_Error (e : Exception) : bool :=
  match e with NonError _ => false | _ => true end.

(** [error.message] of an [Error] instance. *)
Definition message_of (e : Exception) : string :=
  match e with
  | BadRequestException m | ConflictException m | NotFoundException m
  | UnauthorizedException m | Error m => m
  | NonError _ => EmptyString
  end.

Definition Result (A : Type) : Type := (Exception + A)%type.

Definition is_ok {A} (r : Result A) : bool :=
  match r with inr _ => true | inl _ => false end.

End Http.
Export Http.

(** ** Rows of the store and request payloads *)

(** Identifiers are opaque. *)
Definition Id := nat.

Module Activity.
Record t := {
  id : Id;
  name : string;
  slug : string;
  startAt : Date;
  endAt : Date;
  closedAt : option Date;
  supportedLanguages : list string }.
End Activity.

Module ActivityContent.
Record t := {
  id : Id;
  activityId : Id;
  lang : string;
  title : string;
  description : option string }.
End ActivityContent.

(** The result of a query with [include: { contents: true }]. *)
Module ActivityWithContents.
Record t := {
  activity : Activity.t;
  contents : list ActivityContent.t }.
End ActivityWithContents.

(** The projection selected by [findOneBySlug]. *)
Module PublicContent.
Record t := {
  lang : string;
  title : string;
  description : option string }.
End PublicContent.

Module PublicActivity.
Record t := {
  slug : string;
  startAt : Date;
  endAt : Date;
  closedAt : option Date;
  supportedLanguages : list string;
  contents : option (list PublicContent.t) }.
End PublicActivity.

Module ActivityContentDto.
Record t := {
  lang : string;
  title : string;
  description : option string }.
End ActivityContentDto.

Module CreateActivityDto.
Record t := {
  name : string;
  slug : string;
  startAt : Date;
  endAt : Date;
  supportedLanguages : list string;
  closedAt : Optional Date;
  contents : list ActivityContentDto.t }.
End CreateActivityDto.

(** [PartialType(CreateActivityDto)]: every field may be missing.  Only
    [closedAt] is tested against [undefined]; the other fields are tested
    for truthiness, so [None] covers [undefined] and [null]. *)
Module UpdateActivityDto.
Record t := {
  name : option string;
  slug : option string;
  startAt : option Date;
  endAt : option Date;
  supportedLanguages : option (list string);
  closedAt : Optional Date;
  contents : option (list ActivityContentDto.t) }.
End UpdateActivityDto.

Module Member.
Record t := {
  id : Id;
  email : string;
  displayName : string;
  avatarUrl : option string;
  organization : option string;
  bio : option string;
  location : option string }.
End Member.

Module MemberProvider.
Record t := {
  id : Id;
  memberId : Id;
  provider : string;
  providerUserId : string }.
End MemberProvider.

Module MemberLink.
Record t := {
  id : Id;
  memberId : Id;
  type : string;
  url : string }.
End MemberLink.

Module Permission.
Record t := {
  id : Id;
  code : string }.
End Permission.

Module RoleMember.
Record t := {
  roleId : Id;
  memberId : Id }.
End RoleMember.

Module RolePermission.
Record t := {
  roleId : Id;
  permissionId : Id }.
End RolePermission.

(** ** The store and the monad of the service methods *)

Module Prisma.

(** The tables, and the source of fresh identifiers. *)
Record Db := {
  activity : list Activity.t;
  activityContent : list ActivityContent.t;
  member : list Member.t;
  memberProvider : list MemberProvider.t;
  memberLink : list MemberLink.t;
  roleMember : list RoleMember.t;
  rolePermission : list RolePermission.t;
  permission : list Permission.t;
  nextId : Id }.

Definition M (A : Type) : Type := Db -> Result A * Db.

Definition ret {A} (a : A) : M A := fun db => (inr a, db).

Definition throw {A} (e : Exception) : M A := fun db => (inl e, db).

Definition bind {A B} (m : M A) (k : A -> M B) : M B :=
  fun db =>
    match m db with
    | (inr a, db') => k a db'
    | (inl e, db') => (inl e, db')
    end.

(** A synchronous method that may throw, called from an [async] one. *)
Definition lift {A} (r : Result A) : M A := fun db => (r, db).

Definition gets {A} (f : Db -> A) : M A := fun db => (inr (f db), db).

Definition modify (f : Db -> Db) : M unit := fun db => (inr tt, f db).

(** [try { body } catch (error) { handler }] *)
Definition try_catch {A} (body : M A) (handler : Exception -> M A) : M A :=
  fun db =>
    match body db with
    | (inr a, db') => (inr a, db')
    | (inl e, db') => handler e db'
    end.

(** [prisma.$transaction]: the writes of a failed body are rolled back. *)
Definition transaction {A} (body : M A) : M A :=
  fun db =>
    match body db with
    | (inr a, db') => (inr a, db')
    | (inl e, _) => (inl e, db)
    end.

End Prisma.
Export Prisma.

Declare Scope monad_scope.
Delimit Scope monad_scope with monad.
Notation "x <- c1 ;; c2" := (bind c1 (fun x => c2))
  (at level 61, c1 at next level, right associativity) : monad_scope.
Notation "c1 ;;; c2" := (bind c1 (fun _ => c2))
  (at level 61, right associativity) : monad_scope.
Local Open Scope monad_scope.

(** [Promise.all(xs.map(f))], the calls taken in the order of the array. *)
Fixpoint mapM {A B} (f : A -> M B) (xs : list A) : M (list B) :=
  match xs with
  | [] => ret []
  | x :: xs' => y <- f x ;; ys <- mapM f xs' ;; ret (y :: ys)
  end.

(** Modelled from the spec: [withId] of src/common/utils/db.util, which is
    not among the sources.  It attaches a fresh opaque identifier to the
    data of a row; here it draws the identifier from the counter. *)
Definition withId : M Id :=
  fun db =>
    (inr (nextId db),
     {| activity := activity db; activityContent := activityContent db;
        member := member db; memberProvider := memberProvider db;
        memberLink := memberLink db; roleMember := roleMember db;
        rolePermission := rolePermission db; permission := permission db;
        nextId := S (nextId db) |}).

(** Writes to single tables. *)
Definition set_activity (l : list Activity.t) (db : Db) : Db :=
  {| activity := l; activityContent := activityContent db;
     member := member db; memberProvider := memberProvider db;
     memberLink := memberLink db; roleMember := roleMember db;
     rolePermission := rolePermission db; permission := permission db;
     nextId := nextId db |}.

Definition set_activityContent (l : list ActivityContent.t) (db : Db) : Db :=
  {| activity := activity db; activityContent := l;
     member := member db; memberProvider := memberProvider db;
     memberLink := memberLink db; roleMember := roleMember db;
     rolePermission := rolePermission db; permission := permission db;
     nextId := nextId db |}.

Definition set_member (l : list Member.t) (db : Db) : Db :=
  {| activity := activity db; activityContent := activityContent db;
     member := l; memberProvider := memberProvider db;
     memberLink := memberLink db; roleMember := roleMember db;
     rolePermission := rolePermission db; permission := permission db;
     nextId := nextId db |}.

Definition set_memberProvider (l : list MemberProvider.t) (db : Db) : Db :=
  {| activity := activity db; activityContent := activityContent db;
     member := member db; memberProvider := l;
     memberLink := memberLink db; roleMember := roleMember db;
     rolePermission := rolePermission db; permission := permission db;
     nextId := nextId db |}.

Definition set_memberLink (l : list MemberLink.t) (db : Db) : Db :=
  {| activity := activity db; activityContent := activityContent db;
     member := member db; memberProvider := memberProvider db;
     memberLink := l; roleMember := roleMember db;
     rolePermission := rolePermission db; permission := permission db;
     nextId := nextId db |}.

(** [update] on a unique key: the first row matching [p] is replaced by
    its image under [f]; [None] when no row matches. *)
Fixpoint update_first {A} (p : A -> bool) (f : A -> A) (l : list A)
  : option (list A) :=
  match l with
  | [] => None
  | x :: l' =>
      if p x then Some (f x :: l')
      else option_map (cons x) (update_first p f l')
  end.

(** ** Queries of the activity tables *)

Definition contents_of (activityId : Id) (db : Db) : list ActivityContent.t :=
  filter (fun c => Nat.eqb (ActivityContent.activityId c) activityId)
    (activityContent db).

(** [prisma.activity.findUnique({ where: { slug } })] *)
Definition activity_findUnique_slug (slug : string) : M (option Activity.t) :=
  gets (fun db => find (fun a => String.eqb (Activity.slug a) slug) (activity db)).

(** The activity with this identifier, its contents included. *)
Definition activity_with_contents (id : Id) (db : Db)
  : option ActivityWithContents.t :=
  match find (fun a => Nat.eqb (Activity.id a) id) (activity db) with
  | Some a =>
      Some {| ActivityWithContents.activity := a;
              ActivityWithContents.contents := contents_of (Activity.id a) db |}
  | None => None
  end.

(** [findUnique({ where: { id }, include: { contents: true } })] *)
Definition activity_findUnique_id (id : Id) : M (option ActivityWithContents.t) :=
  gets (activity_with_contents id).

Definition select_content (c : ActivityContent.t) : PublicContent.t :=
  {| PublicContent.lang := ActivityContent.lang c;
     PublicContent.title := ActivityContent.title c;
     PublicContent.description := ActivityContent.description c |}.

(** The [where] clause on the contents relation: [{ lang }] or [undefined]. *)
Definition where_lang (w : option string) (c : ActivityContent.t) : bool :=
  match w with
  | Some l => String.eqb (ActivityContent.lang c) l
  | None => true
  end.

(** [findUnique({ where: { slug }, select: { ..., contents: { select, where } } })] *)
Definition activity_findUnique_select (slug : string) (w : option string)
  : M (option PublicActivity.t) :=
  gets (fun db =>
    match find (fun a => String.eqb (Activity.slug a) slug) (activity db) with
    | Some a =>
        Some {| PublicActivity.slug := Activity.slug a;
                PublicActivity.startAt := Activity.startAt a;
                PublicActivity.endAt := Activity.endAt a;
                PublicActivity.closedAt := Activity.closedAt a;
                PublicActivity.supportedLanguages := Activity.supportedLanguages a;
                PublicActivity.contents :=
                  Some (map select_content
                          (filter (where_lang w) (contents_of (Activity.id a) db))) |}
    | None => None
    end).

Definition new_content (id activityId : Id) (c : ActivityContentDto.t)
  : ActivityContent.t :=
  {| ActivityContent.id := id;
     ActivityContent.activityId := activityId;
     ActivityContent.lang := ActivityContentDto.lang c;
     ActivityContent.title := ActivityContentDto.title c;
     ActivityContent.description := ActivityContentDto.description c |}.

(** [prisma.activity.create({ data, include: { contents: true } })] with the
    nested [contents: { create: [...] }]: one insert of the activity row
    and of its content rows, which take the identifier of the activity. *)
Definition activity_create (a : Activity.t) (cs : list (Id * ActivityContentDto.t))
  : M ActivityWithContents.t :=
  let rows := map (fun ic => new_content (fst ic) (Activity.id a) (snd ic)) cs in
  modify (fun db =>
    set_activityContent (activityContent db ++ rows)
      (set_activity (activity db ++ [a]) db)) ;;;
  ret {| ActivityWithContents.activity := a;
         ActivityWithContents.contents := rows |}.

(** [tx.activity.update({ where: { id }, data })]; fails when there is no
    such row. *)
Definition activity_update (id : Id) (data : Activity.t -> Activity.t) : M unit :=
  fun db =>
    match update_first (fun a => Nat.eqb (Activity.id a) id) data (activity db) with
    | Some l => (inr tt, set_activity l db)
    | None => (inl (Error "Record to update not found."), db)
    end.

Definition same_key (activityId : Id) (lang : string) (c : ActivityContent.t) : bool :=
  Nat.eqb (ActivityContent.activityId c) activityId
  && String.eqb (ActivityContent.lang c) lang.

(** [tx.activityContent.upsert({ where: { activityId_lang }, update, create })]:
    the row with this key is updated when there is one, else [create] is
    inserted.  The caller discards the returned row. *)
Definition activityContent_upsert (activityId : Id) (lang : string)
  (update : ActivityContent.t -> ActivityContent.t) (create : ActivityContent.t)
  : M unit :=
  modify (fun db =>
    match update_first (same_key activityId lang) update (activityContent db) with
    | Some l => set_activityContent l db
    | None => set_activityContent (activityContent db ++ [create]) db
    end).

(** ** ActivityService *)

Module ActivityService.

(** The double-quote character of the conflict message. *)
Definition dquote : string := String (ascii_of_nat 34) EmptyString.

(** [validateDates(startAt, endAt, closedAt)] *)
Definition validateDates (startAt endAt : Date) (closedAt : Optional Date)
  : Result unit :=
  if endAt <=? startAt then
    inl (BadRequestException "End date must be after start date")
  else
    match closedAt with
    | defined c =>
        if truthy c && (c >=? startAt) then
          inl (BadRequestException "Closed date must be before start date")
        else inr tt
    | _ => inr tt
    end.

(** [checkSlugExists(slug)] *)
Definition checkSlugExists (slug : string) : M unit :=
  existing <- activity_findUnique_slug slug ;;
  match existing with
  | Some _ =>
      throw (ConflictException
               ("Activity with slug " ++ dquote ++ slug ++ dquote
                ++ " already exists")%string)
  | None => ret tt
  end.

Definition unsupportedLangs_of (contentLangs supportedLanguages : list string)
  : list string :=
  filter (fun lang => negb (includes supportedLanguages lang)) contentLangs.

Definition duplicateLangs_of (contentLangs : list string) : list string :=
  filteri (fun lang index => negb (indexOf contentLangs lang =? index))
    contentLangs.

(** [validateContentLanguages(contents, supportedLanguages)]; the two
    [console.log] calls are left out. *)
Definition validateContentLanguages (contents : list ActivityContentDto.t)
  (supportedLanguages : list string) : Result unit :=
  let contentLangs := map ActivityContentDto.lang contents in
  let unsupportedLangs := unsupportedLangs_of contentLangs supportedLanguages in
  if (Z.of_nat (List.length unsupportedLangs) >? 0) then
    inl (BadRequestException
           ("Contents contain unsupported languages: "
            ++ join ", " unsupportedLangs)%string)
  else
    let duplicateLangs := duplicateLangs_of contentLangs in
    if (Z.of_nat (List.length duplicateLangs) >? 0) then
      inl (BadRequestException
             ("Duplicate languages in contents: "
              ++ join ", " duplicateLangs)%string)
    else inr tt.

(** [applySupportedLanguageFilter(activity)] *)
Definition applySupportedLanguageFilter (activity : option PublicActivity.t)
  : option PublicActivity.t :=
  match activity with
  | None => activity
  | Some a =>
      match PublicActivity.contents a with
      | None => activity
      | Some contents =>
          Some {| PublicActivity.slug := PublicActivity.slug a;
                  PublicActivity.startAt := PublicActivity.startAt a;
                  PublicActivity.endAt := PublicActivity.endAt a;
                  PublicActivity.closedAt := PublicActivity.closedAt a;
                  PublicActivity.supportedLanguages :=
                    PublicActivity.supportedLanguages a;
                  PublicActivity.contents :=
                    Some (filter
                            (fun c => includes (PublicActivity.supportedLanguages a)
                                        (PublicContent.lang c))
                            contents) |}
      end
  end.

(** [create(dto)] *)
Definition create (dto : CreateActivityDto.t) : M ActivityWithContents.t :=
  lift (validateDates (CreateActivityDto.startAt dto) (CreateActivityDto.endAt dto)
          (CreateActivityDto.closedAt dto)) ;;;
  checkSlugExists (CreateActivityDto.slug dto) ;;;
  lift (validateContentLanguages (CreateActivityDto.contents dto)
          (CreateActivityDto.supportedLanguages dto)) ;;;
  contents <- mapM (fun content => id <- withId ;; ret (id, content))
                (CreateActivityDto.contents dto) ;;
  id <- withId ;;
  activity_create
    {| Activity.id := id;
       Activity.name := CreateActivityDto.name dto;
       Activity.slug := CreateActivityDto.slug dto;
       Activity.startAt := CreateActivityDto.startAt dto;
       Activity.endAt := CreateActivityDto.endAt dto;
       Activity.closedAt := or_null (CreateActivityDto.closedAt dto);
       Activity.supportedLanguages := CreateActivityDto.supportedLanguages dto |}
    contents.

(** [findOneById(id)] *)
Definition findOneById (id : Id) : M ActivityWithContents.t :=
  activity <- activity_findUnique_id id ;;
  match activity with
  | None => throw (NotFoundException "Activity not found")
  | Some a => ret a
  end.

(** [findOneBySlug(slug, lang)] *)
Definition findOneBySlug (slug : string) (lang : option string)
  : M (option PublicActivity.t) :=
  activity <- activity_findUnique_select slug
                (match lang with
                 | Some l => if truthy l then Some (toLowerCase l) else None
                 | None => None
                 end) ;;
  match activity with
  | None => throw (NotFoundException "Activity not found")
  | Some _ => ret (applySupportedLanguageFilter activity)
  end.

(** The [closedAt] handed to [validateDates] by [update]. *)
Definition merged_closedAt (dto : UpdateActivityDto.t) (activity : Activity.t)
  : Optional Date :=
  match UpdateActivityDto.closedAt dto with
  | undefined => of_nullable (Activity.closedAt activity)
  | supplied => supplied
  end.

(** The [data] of [tx.activity.update]: a field is written when its
    guard in the object spread holds. *)
Definition update_data (dto : UpdateActivityDto.t) (a : Activity.t) : Activity.t :=
  {| Activity.id := Activity.id a;
     Activity.name := or_else (UpdateActivityDto.name dto) (Activity.name a);
     Activity.slug := or_else (UpdateActivityDto.slug dto) (Activity.slug a);
     Activity.startAt := or_else (UpdateActivityDto.startAt dto) (Activity.startAt a);
     Activity.endAt := or_else (UpdateActivityDto.endAt dto) (Activity.endAt a);
     Activity.closedAt :=
       match UpdateActivityDto.closedAt dto with
       | undefined => Activity.closedAt a
       | supplied => to_nullable supplied
       end;
     Activity.supportedLanguages :=
       or_else (UpdateActivityDto.supportedLanguages dto)
         (Activity.supportedLanguages a) |}.

Definition upsert_content (id : Id) (content : ActivityContentDto.t) : M unit :=
  fresh <- withId ;;
  activityContent_upsert id (ActivityContentDto.lang content)
    (fun row =>
       {| ActivityContent.id := ActivityContent.id row;
          ActivityContent.activityId := ActivityContent.activityId row;
          ActivityContent.lang := ActivityContent.lang row;
          ActivityContent.title := ActivityContentDto.title content;
          ActivityContent.description := ActivityContentDto.description content |})
    (new_content fresh id content).

(** [update(id, dto)] *)
Definition update (id : Id) (dto : UpdateActivityDto.t)
  : M (option ActivityWithContents.t) :=
  found <- findOneById id ;;
  let activity := ActivityWithContents.activity found in
  (if truthy (UpdateActivityDto.startAt dto)
      || truthy (UpdateActivityDto.endAt dto)
      || match UpdateActivityDto.closedAt dto with
         | undefined => false
         | _ => true
         end
   then
     let startAt := or_else (UpdateActivityDto.startAt dto) (Activity.startAt activity) in
     let endAt := or_else (UpdateActivityDto.endAt dto) (Activity.endAt activity) in
     let closedAt := merged_closedAt dto activity in
     lift (validateDates startAt endAt closedAt)
   else ret tt) ;;;
  match UpdateActivityDto.slug dto with
  | Some slug =>
      if truthy slug && negb (String.eqb slug (Activity.slug activity))
      then checkSlugExists slug
      else ret tt
  | None => ret tt
  end ;;;
  match UpdateActivityDto.contents dto with
  | Some contents =>
      lift (validateContentLanguages contents
              (or_else (UpdateActivityDto.supportedLanguages dto)
                 (Activity.supportedLanguages activity)))
  | None => ret tt
  end ;;;
  transaction (
    activity_update id (update_data dto) ;;;
    match UpdateActivityDto.contents dto with
    | Some contents => mapM (upsert_content id) contents ;;; ret tt
    | None => ret tt
    end ;;;
    activity_findUnique_id id).

End ActivityService.

(** ** PermissionGuard *)

Module AuthUser.
Record t := {
  id : Id;
  permissions : list string;
  tokenVersion : option Z }.
End AuthUser.

(** What the guard reads from the execution context: the [permissions]
    metadata of the handler and of its class, and [request.user]. *)
Module ExecutionContext.
Record t := {
  handler_permissions : option (list string);
  class_permissions : option (list string);
  user : option AuthUser.t }.
End ExecutionContext.

Module PermissionGuard.

(** [Reflector.getAllAndOverride]: the first metadata value that is not
    [undefined] among the targets. *)
Fixpoint getAllAndOverride {A} (targets : list (option A)) : option A :=
  match targets with
  | [] => None
  | Some v :: _ => Some v
  | None :: rest => getAllAndOverride rest
  end.

(** [canActivate(context)] *)
Definition canActivate (context : ExecutionContext.t) : bool :=
  let requiredPermissions :=
    getAllAndOverride [ExecutionContext.handler_permissions context;
                       ExecutionContext.class_permissions context] in
  if negb (truthy requiredPermissions) then true
  else
    match requiredPermissions with
    | None => true
    | Some required =>
        match ExecutionContext.user context with
        | None => false
        | Some user =>
            every (fun permission => includes (AuthUser.permissions user) permission)
              required
        end
    end.

End PermissionGuard.

(** ** AuthService *)

Module GithubProfile.
Record t := {
  id : Z;
  login : string;
  name : option string;
  email : option string;
  avatar_url : string;
  company : option string;
  bio : option string;
  html_url : string;
  location : option string }.
End GithubProfile.

Module GithubEmail.
Record t := {
  email : string;
  primary : bool }.
End GithubEmail.

Module GithubSocial.
Record t := {
  provider : string;
  url : string }.
End GithubSocial.

Module JwtPayload.
Record t := {
  sub : Id;
  email : string;
  permissions : list string }.
End JwtPayload.

Module Response.
Record t (T : Type) := {
  ok : bool;
  statusText : string;
  json : Result T }.
Arguments ok {T} _.
Arguments statusText {T} _.
Arguments json {T} _.
End Response.

(** What the login service gets from outside the program: the execution
    mode, the answers of the identity provider to the token exchange and
    to [fetch] (URL and [Authorization] header) on its three endpoints,
    the token signer and the clock. *)
Module Env.
Record t := {
  NODE_ENV : option string;
  validateAuthorizationCode : string -> Result string;
  fetch_user : string -> string -> Result (Response.t GithubProfile.t);
  fetch_emails : string -> string -> Result (Response.t (list GithubEmail.t));
  fetch_social : string -> string -> Result (Response.t (list GithubSocial.t));
  signAsync : JwtPayload.t -> Result string;
  now : Z }.
End Env.

(** The row of a member with its [providers] relation included. *)
Module MemberWithProviders.
Record t := {
  member : Member.t;
  providers : list MemberProvider.t }.
End MemberWithProviders.

Module DevLoginResult.
Record t := {
  access_token : string;
  user_id : Id;
  user_email : string;
  user_permissions : list string }.
End DevLoginResult.

Definition providers_of (memberId : Id) (db : Db) : list MemberProvider.t :=
  filter (fun p => Nat.eqb (MemberProvider.memberId p) memberId) (memberProvider db).

(** [prisma.member.findUnique({ where: { email }, include: { providers: true } })] *)
Definition member_findUnique_email (email : string)
  : M (option MemberWithProviders.t) :=
  gets (fun db =>
    match find (fun m => String.eqb (Member.email m) email) (member db) with
    | Some m =>
        Some {| MemberWithProviders.member := m;
                MemberWithProviders.providers := providers_of (Member.id m) db |}
    | None => None
    end).

(** [prisma.member.findUnique({ where: { email } })] *)
Definition member_findUnique (email : string) : M (option Member.t) :=
  gets (fun db => find (fun m => String.eqb (Member.email m) email) (member db)).

(** [prisma.member.create] with the nested [memberLinks] and [providers]. *)
Definition member_create (m : Member.t) (links : list (Id * (string * string)))
  (providers : list MemberProvider.t) : M MemberWithProviders.t :=
  let rows :=
    map (fun l => {| MemberLink.id := fst l; MemberLink.memberId := Member.id m;
                     MemberLink.type := fst (snd l); MemberLink.url := snd (snd l) |})
      links in
  modify (fun db =>
    set_memberProvider (memberProvider db ++ providers)
      (set_memberLink (memberLink db ++ rows)
         (set_member (member db ++ [m]) db))) ;;;
  ret {| MemberWithProviders.member := m;
         MemberWithProviders.providers := providers |}.

(** [prisma.memberProvider.create] *)
Definition memberProvider_create (p : MemberProvider.t) : M unit :=
  modify (fun db => set_memberProvider (memberProvider db ++ [p]) db).

(** [prisma.rolePermission.findMany] over the roles that have the member,
    with [include: { permission: true }]. *)
Definition rolePermission_findMany (memberId : Id)
  : M (list (RolePermission.t * Permission.t)) :=
  gets (fun db =>
    flat_map
      (fun rp =>
         if some (fun rm => Nat.eqb (RoleMember.roleId rm) (RolePermission.roleId rp)
                            && Nat.eqb (RoleMember.memberId rm) memberId)
              (roleMember db)
         then
           match find (fun p => Nat.eqb (Permission.id p) (RolePermission.permissionId rp))
                   (permission db) with
           | Some p => [(rp, p)]
           | None => []
           end
         else [])
      (rolePermission db)).

Module AuthService.

(** [fetchGithub<T>(endpoint, token)] *)
Definition fetchGithub {T} (fetch : string -> string -> Result (Response.t T))
  (endpoint token : string) : Result T :=
  match fetch ("https://api.github.com/" ++ endpoint)%string
          ("Bearer " ++ token)%string with
  | inl e => inl e
  | inr response =>
      if negb (Response.ok response) then
        inl (Error ("GitHub API error: " ++ Response.statusText response)%string)
      else Response.json response
  end.

(** [getUserPermissions(memberId)] *)
Definition getUserPermissions (memberId : Id) : M (list string) :=
  let permissions := Set_new in
  rolePermissions <- rolePermission_findMany memberId ;;
  let permissions :=
    fold_left (fun permissions rp => Set_add permissions (Permission.code (snd rp)))
      rolePermissions permissions in
  ret (Array_from permissions).

Definition missing_email : Exception :=
  UnauthorizedException "Unable to obtain a valid email address from GitHub".

(** The [try] block of [loginWithGithub].  The three requests joined by
    [Promise.all] are taken in the order of the array. *)
Definition loginWithGithub_try (env : Env.t) (code : string) : M string :=
  let provider := "github" in
  accessToken <- lift (Env.validateAuthorizationCode env code) ;;
  githubUser <- lift (fetchGithub (Env.fetch_user env) "user" accessToken) ;;
  githubEmails <- lift (fetchGithub (Env.fetch_emails env) "user/emails" accessToken) ;;
  socialAccounts <-
    lift (fetchGithub (Env.fetch_social env) "user/social_accounts" accessToken) ;;
  let email :=
    or_ (GithubProfile.email githubUser)
      (option_map GithubEmail.email (find GithubEmail.primary githubEmails)) in
  match email with
  | None => throw missing_email
  | Some email =>
      if negb (truthy email) then throw missing_email
      else
        linkId <- withId ;;
        let githubProfileLink :=
          (linkId, ("github", GithubProfile.html_url githubUser)) in
        otherSocialLinks <-
          mapM (fun account =>
                  id <- withId ;;
                  ret (id, (GithubSocial.provider account, GithubSocial.url account)))
            socialAccounts ;;
        let allLinks := githubProfileLink :: otherSocialLinks in
        found <- member_findUnique_email email ;;
        user <-
          match found with
          | None =>
              providerRowId <- withId ;;
              memberId <- withId ;;
              member_create
                {| Member.id := memberId;
                   Member.email := email;
                   Member.displayName :=
                     or_else (GithubProfile.name githubUser) (GithubProfile.login githubUser);
                   Member.avatarUrl := Some (GithubProfile.avatar_url githubUser);
                   Member.organization := GithubProfile.company githubUser;
                   Member.bio := GithubProfile.bio githubUser;
                   Member.location := GithubProfile.location githubUser |}
                allLinks
                [{| MemberProvider.id := providerRowId;
                    MemberProvider.memberId := memberId;
                    MemberProvider.provider := provider;
                    MemberProvider.providerUserId :=
                      String_of (GithubProfile.id githubUser) |}]
          | Some user =>
              let hasGithub :=
                some (fun p => String.eqb (MemberProvider.provider p) provider)
                  (MemberWithProviders.providers user) in
              (if negb hasGithub then
                 id <- withId ;;
                 memberProvider_create
                   {| MemberProvider.id := id;
                      MemberProvider.memberId :=
                        Member.id (MemberWithProviders.member user);
                      MemberProvider.provider := provider;
                      MemberProvider.providerUserId :=
                        String_of (GithubProfile.id githubUser) |}
               else ret tt) ;;;
              ret user
          end ;;
        let member := MemberWithProviders.member user in
        permissions <- getUserPermissions (Member.id member) ;;
        let payload :=
          {| JwtPayload.sub := Member.id member;
             JwtPayload.email := Member.email member;
             JwtPayload.permissions := permissions |} in
        lift (Env.signAsync env payload)
  end.

(** The [catch] block of [loginWithGithub]; the call of the logger is
    left out. *)
Definition loginWithGithub_catch (error : Exception) : M string :=
  if is_UnauthorizedException error then throw error
  else
    let message := if is_Error error then message_of error else "Unknown error" in
    throw (UnauthorizedException ("GitHub Authentication Failed: " ++ message)%string).

(** [loginWithGithub(code)]; the result is the [access_token]. *)
Definition loginWithGithub (env : Env.t) (code : string) : M string :=
  try_catch (loginWithGithub_try env code) loginWithGithub_catch.

(** [process.env.NODE_ENV === mode] *)
Definition NODE_ENV_is (env : Env.t) (mode : string) : bool :=
  match Env.NODE_ENV env with
  | Some m => String.eqb m mode
  | None => false
  end.

(** [devLogin(email)] *)
Definition devLogin (env : Env.t) (email : string) : M DevLoginResult.t :=
  if NODE_ENV_is env "production" then
    throw (Error "This endpoint is only available in development")
  else
    found <- member_findUnique email ;;
    member <-
      match found with
      | Some member => ret member
      | None =>
          providerRowId <- withId ;;
          memberId <- withId ;;
          created <-
            member_create
              {| Member.id := memberId;
                 Member.email := email;
                 Member.displayName := split_head "@" email;
                 Member.avatarUrl := None;
                 Member.organization := None;
                 Member.bio := None;
                 Member.location := None |}
              []
              [{| MemberProvider.id := providerRowId;
                  MemberProvider.memberId := memberId;
                  MemberProvider.provider := "dev";
                  MemberProvider.providerUserId :=
                    ("dev_" ++ String_of (Env.now env))%string |}] ;;
          ret (MemberWithProviders.member created)
      end ;;
    permissions <- getUserPermissions (Member.id member) ;;
    let payload :=
      {| JwtPayload.sub := Member.id member;
         JwtPayload.email := Member.email member;
         JwtPayload.permissions := permissions |} in
    access_token <- lift (Env.signAsync env payload) ;;
    ret {| DevLoginResult.access_token := access_token;
           DevLoginResult.user_id := Member.id member;
           DevLoginResult.user_email := Member.email member;
           DevLoginResult.user_permissions := permissions |}.

End AuthService.

(** ** Functions and sample data used in the statements and proofs *)

(** The elements of [l] that already occur in [seen] or earlier in [l]. *)
Fixpoint later_dups (seen l : list string) : list string :=
  match l with
  | [] => []
  | x :: l' =>
      if includes seen x then x :: later_dups (seen ++ [x]) l'
      else later_dups (seen ++ [x]) l'
  end.

Definition guard_sample : ExecutionContext.t :=
  {| ExecutionContext.handler_permissions := Some ["activity:manage"];
     ExecutionContext.class_permissions := None;
     ExecutionContext.user :=
       Some {| AuthUser.id := 1%nat;
               AuthUser.permissions := ["activity:view"; "activity:manage"];
               AuthUser.tokenVersion := None |} |}.

(** Two roles of one member granting the same permission. *)
Definition two_roles_db : Db :=
  {| activity := []; activityContent := []; member := [];
     memberProvider := []; memberLink := [];
     roleMember :=
       [{| RoleMember.roleId := 1%nat; RoleMember.memberId := 7%nat |};
        {| RoleMember.roleId := 2%nat; RoleMember.memberId := 7%nat |}];
     rolePermission :=
       [{| RolePermission.roleId := 1%nat; RolePermission.permissionId := 10%nat |};
        {| RolePermission.roleId := 1%nat; RolePermission.permissionId := 11%nat |};
        {| RolePermission.roleId := 2%nat; RolePermission.permissionId := 10%nat |}];
     permission :=
       [{| Permission.id := 10%nat; Permission.code := "activity:manage" |};
        {| Permission.id := 11%nat; Permission.code := "activity:view" |}];
     nextId := 100%nat |}.

(** The store after [n] identifiers have been drawn. *)
Definition advance (n : nat) (db : Db) : Db :=
  {| activity := activity db; activityContent := activityContent db;
     member := member db; memberProvider := memberProvider db;
     memberLink := memberLink db; roleMember := roleMember db;
     rolePermission := rolePermission db; permission := permission db;
     nextId := (n + nextId db)%nat |}.

(** The order of dates required of an activity. *)
Definition date_order_ok (startAt endAt : Date) (closedAt : Optional Date) : Prop :=
  startAt < endAt
  /\ match closedAt with
     | defined c => c < startAt
     | _ => True
     end.

(** Some stored activity has this slug. *)
Definition slug_taken (slug : string) (db : Db) : Prop :=
  exists a, In a (activity db) /\ Activity.slug a = slug.

Definition content_en : ActivityContentDto.t :=
  {| ActivityContentDto.lang := "en-us";
     ActivityContentDto.title := "Call for proposals";
     ActivityContentDto.description := None |}.

Definition content_fr : ActivityContentDto.t :=
  {| ActivityContentDto.lang := "fr-fr";
     ActivityContentDto.title := "Appel";
     ActivityContentDto.description := None |}.

Definition content_zh : ActivityContentDto.t :=
  {| ActivityContentDto.lang := "zh-tw";
     ActivityContentDto.title := "CFP";
     ActivityContentDto.description := Some "2025" |}.

Definition empty_db : Db :=
  {| activity := []; activityContent := []; member := [];
     memberProvider := []; memberLink := []; roleMember := [];
     rolePermission := []; permission := []; nextId := 0%nat |}.

(** A stored activity with one content row. *)
Definition stored_activity : Activity.t :=
  {| Activity.id := 1%nat; Activity.name := "JSDC 2025"; Activity.slug := "jsdc-2025";
     Activity.startAt := 1000; Activity.endAt := 2000; Activity.closedAt := Some 500;
     Activity.supportedLanguages := ["en-us"; "zh-tw"] |}.

Definition stored_db : Db :=
  set_activityContent [new_content 2%nat 1%nat content_en]
    (set_activity [stored_activity] (advance 3 empty_db)).

Definition create_dto (slug : string) (startAt endAt : Date) (closedAt : Optional Date)
  (contents : list ActivityContentDto.t) : CreateActivityDto.t :=
  {| CreateActivityDto.name := "JSDC";
     CreateActivityDto.slug := slug;
     CreateActivityDto.startAt := startAt;
     CreateActivityDto.endAt := endAt;
     CreateActivityDto.supportedLanguages := ["en-us"; "zh-tw"];
     CreateActivityDto.closedAt := closedAt;
     CreateActivityDto.contents := contents |}.

(** The three checks of [update] on the stored activity [a], in the order
    in which [update] runs them. *)
Definition update_date_check (dto : UpdateActivityDto.t) (a : Activity.t)
  : Result unit :=
  if truthy (UpdateActivityDto.startAt dto)
     || truthy (UpdateActivityDto.endAt dto)
     || match UpdateActivityDto.closedAt dto with
        | undefined => false
        | _ => true
        end
  then
    ActivityService.validateDates
      (or_else (UpdateActivityDto.startAt dto) (Activity.startAt a))
      (or_else (UpdateActivityDto.endAt dto) (Activity.endAt a))
      (ActivityService.merged_closedAt dto a)
  else inr tt.

Definition update_slug_check (dto : UpdateActivityDto.t) (a : Activity.t) (db : Db)
  : Result unit :=
  match UpdateActivityDto.slug dto with
  | Some slug =>
      if truthy slug && negb (String.eqb slug (Activity.slug a))
      then fst (ActivityService.checkSlugExists slug db)
      else inr tt
  | None => inr tt
  end.

Definition update_content_check (dto : UpdateActivityDto.t) (a : Activity.t)
  : Result unit :=
  match UpdateActivityDto.contents dto with
  | Some contents =>
      ActivityService.validateContentLanguages contents
        (or_else (UpdateActivityDto.supportedLanguages dto)
           (Activity.supportedLanguages a))
  | None => inr tt
  end.

(** The [update] clause of the upsert of one content. *)
Definition set_text (c : ActivityContentDto.t) (row : ActivityContent.t)
  : ActivityContent.t :=
  {| ActivityContent.id := ActivityContent.id row;
     ActivityContent.activityId := ActivityContent.activityId row;
     ActivityContent.lang := ActivityContent.lang row;
     ActivityContent.title := ActivityContentDto.title c;
     ActivityContent.description := ActivityContentDto.description c |}.

(** The content table after the upsert of [c], [fresh] being the
    identifier drawn for a new row. *)
Definition upsert_row (id : Id) (c : ActivityContentDto.t) (fresh : Id)
  (rows : list ActivityContent.t) : list ActivityContent.t :=
  match update_first (same_key id (ActivityContentDto.lang c)) (set_text c) rows with
  | Some l => l
  | None => rows ++ [new_content fresh id c]
  end.

(** The content table after the upserts of [cs] in order, the identifiers
    being drawn from [fresh] on. *)
Fixpoint upsert_rows (id : Id) (cs : list ActivityContentDto.t) (fresh : Id)
  (rows : list ActivityContent.t) : list ActivityContent.t :=
  match cs with
  | [] => rows
  | c :: cs' => upsert_rows id cs' (S fresh) (upsert_row id c fresh rows)
  end.

(** The store written by the transaction of [update] on an existing
    activity. *)
Definition update_written (id : Id) (dto : UpdateActivityDto.t) (db : Db) : Db :=
  let activities :=
    match update_first (fun a => Nat.eqb (Activity.id a) id)
            (ActivityService.update_data dto) (activity db) with
    | Some l => l
    | None => activity db
    end in
  match UpdateActivityDto.contents dto with
  | Some cs =>
      set_activityContent
        (upsert_rows id cs (nextId db) (activityContent db))
        (set_activity activities (advance (List.length cs) db))
  | None => set_activity activities db
  end.

(** An update of [closedAt] alone. *)
Definition closedAt_dto (closedAt : Optional Date) : UpdateActivityDto.t :=
  {| UpdateActivityDto.name := None;
     UpdateActivityDto.slug := None;
     UpdateActivityDto.startAt := None;
     UpdateActivityDto.endAt := None;
     UpdateActivityDto.supportedLanguages := None;
     UpdateActivityDto.closedAt := closedAt;
     UpdateActivityDto.contents := None |}.

(** An update of the contents and of the slug. *)
Definition contents_dto : UpdateActivityDto.t :=
  {| UpdateActivityDto.name := None;
     UpdateActivityDto.slug := Some "jsdc-taipei";
     UpdateActivityDto.startAt := None;
     UpdateActivityDto.endAt := Some 3000;
     UpdateActivityDto.supportedLanguages := None;
     UpdateActivityDto.closedAt := undefined;
     UpdateActivityDto.contents := Some [content_zh; content_en] |}.

(** The upsert of [c] would leave the content table as it is. *)
Definition settled (id : Id) (c : ActivityContentDto.t)
  (rows : list ActivityContent.t) : Prop :=
  update_first (same_key id (ActivityContentDto.lang c)) (set_text c) rows
  = Some rows.

(** The stored activity with three content rows; [fr-fr] is no longer
    among its supported languages. *)
Definition public_db : Db :=
  set_activityContent
    [new_content 2%nat 1%nat content_en;
     new_content 3%nat 1%nat content_fr;
     new_content 4%nat 1%nat content_zh]
    (set_activity [stored_activity] (advance 5 empty_db)).

(** A provider that answers every request, for a profile with or without
    a public email and with no primary email in the list. *)
Definition sample_profile (email : option string) : GithubProfile.t :=
  {| GithubProfile.id := 583231;
     GithubProfile.login := "octocat";
     GithubProfile.name := None;
     GithubProfile.email := email;
     GithubProfile.avatar_url := "https://avatars.example/u/583231";
     GithubProfile.company := None;
     GithubProfile.bio := None;
     GithubProfile.html_url := "https://github.com/octocat";
     GithubProfile.location := None |}.

Definition answer {T} (body : T) : Result (Response.t T) :=
  inr {| Response.ok := true; Response.statusText := "OK"; Response.json := inr body |}.

Definition sample_env (mode : option string) (email : option string) : Env.t :=
  {| Env.NODE_ENV := mode;
     Env.validateAuthorizationCode := fun _ => inr "gho_16C7e42F292c6912E7";
     Env.fetch_user := fun _ _ => answer (sample_profile email);
     Env.fetch_emails := fun _ _ =>
       answer [{| GithubEmail.email := "octocat@users.example";
                  GithubEmail.primary := false |}];
     Env.fetch_social := fun _ _ => answer [];
     Env.signAsync := fun payload => inr ("jwt." ++ JwtPayload.email payload)%string;
     Env.now := 1767225600000 |}.

(** ** Store invariants and the writes of a successful [create] *)

(** The unique index on [activities.slug]. *)
Definition unique_slugs (db : Db) : Prop :=
  NoDup (map Activity.slug (activity db)).

(** The unique index on [(activity_id, lang)] of the content table. *)
Definition content_key (c : ActivityContent.t) : Id * string :=
  (ActivityContent.activityId c, ActivityContent.lang c).

Definition unique_content_keys (db : Db) : Prop :=
  NoDup (map content_key (activityContent db)).

(** Every identifier in the activity tables was drawn from the counter. *)
Definition fresh_ids (db : Db) : Prop :=
  Forall (fun a => (Activity.id a < nextId db)%nat) (activity db)
  /\ Forall (fun c => (ActivityContent.id c < nextId db)%nat
                      /\ (ActivityContent.activityId c < nextId db)%nat)
       (activityContent db).

(** The order of dates of a stored activity. *)
Definition dates_ordered (a : Activity.t) : Prop :=
  date_order_ok (Activity.startAt a) (Activity.endAt a)
    (of_nullable (Activity.closedAt a)).

(** The activity row, the content rows and the store written by a
    [create] whose checks pass. *)
Definition created_activity (dto : CreateActivityDto.t) (db : Db) : Activity.t :=
  {| Activity.id := (List.length (CreateActivityDto.contents dto) + nextId db)%nat;
     Activity.name := CreateActivityDto.name dto;
     Activity.slug := CreateActivityDto.slug dto;
     Activity.startAt := CreateActivityDto.startAt dto;
     Activity.endAt := CreateActivityDto.endAt dto;
     Activity.closedAt := or_null (CreateActivityDto.closedAt dto);
     Activity.supportedLanguages := CreateActivityDto.supportedLanguages dto |}.

Definition created_rows (dto : CreateActivityDto.t) (db : Db)
  : list ActivityContent.t :=
  map (fun ic => new_content (fst ic) (Activity.id (created_activity dto db)) (snd ic))
    (combine (seq (nextId db) (List.length (CreateActivityDto.contents dto)))
       (CreateActivityDto.contents dto)).

Definition created_db (dto : CreateActivityDto.t) (db : Db) : Db :=
  set_activityContent (activityContent db ++ created_rows dto db)
    (set_activity (activity db ++ [created_activity dto db])
       (advance (S (List.length (CreateActivityDto.contents dto))) db)).

(** The public projection of a content of a payload. *)
Definition public_content (c : ActivityContentDto.t) : PublicContent.t :=
  {| PublicContent.lang := ActivityContentDto.lang c;
     PublicContent.title := ActivityContentDto.title c;
     PublicContent.description := ActivityContentDto.description c |}.

(** The order of dates holds for every stored activity. *)
Definition all_dates_ordered (db : Db) : Prop :=
  Forall dates_ordered (activity db).

(** The keys of the activity tables: identifiers drawn from the counter,
    primary keys without repetition, one content row per activity and
    language. *)
Definition well_keyed (db : Db) : Prop :=
  fresh_ids db
  /\ NoDup (map Activity.id (activity db))
  /\ NoDup (map ActivityContent.id (activityContent db))
  /\ unique_content_keys db.

(** The same for a content table and a counter value [n]. *)
Definition table_keyed (n : Id) (rows : list ActivityContent.t) : Prop :=
  Forall (fun c => (ActivityContent.id c < n)%nat
                   /\ (ActivityContent.activityId c < n)%nat) rows
  /\ NoDup (map ActivityContent.id rows)
  /\ NoDup (map content_key rows).

(** ** AuthController *)

Module Cookie.
Record t := {
  name : string;
  value : string;
  httpOnly : bool;
  secure : bool;
  sameSite : option string;
  maxAge : Z;
  path : string }.
End Cookie.

(** What a handler did to [res]: the status, the cookies set and cleared,
    and the body sent. *)
Module HttpResponse.
Record t := {
  status : Z;
  cookies : list Cookie.t;
  cleared : list string;
  body : string }.
End HttpResponse.

(** What the controller gets from outside the program besides [Env.t]:
    the variable [CLIENT_URL] and the built-in [JSON.stringify] on
    strings. *)
Module ControllerEnv.
Record t := {
  CLIENT_URL : option string;
  JSON_stringify : string -> string }.
End ControllerEnv.

Module AuthController.

Definition nl : string := String (ascii_of_nat 10) EmptyString.

(** The page sent after a successful login. *)
Definition success_page (clientUrl : string) : string :=
  (nl
   ++ "        <html>" ++ nl
   ++ "          <body>" ++ nl
   ++ "            <script>" ++ nl
   ++ "              window.opener.postMessage({ type: 'AUTH_SUCCESS' }, '"
   ++ clientUrl ++ "');" ++ nl
   ++ "              window.close();" ++ nl
   ++ "            </script>" ++ nl
   ++ "            <p>Login successful, redirecting...</p>" ++ nl
   ++ "          </body>" ++ nl
   ++ "        </html>" ++ nl
   ++ "      ")%string.

(** The page sent after a failed login. *)
Definition error_page (stringified clientUrl : string) : string :=
  (nl
   ++ "        <script>" ++ nl
   ++ "          window.opener.postMessage({ type: 'AUTH_ERROR', message: '"
   ++ stringified ++ "' }, '" ++ clientUrl ++ "');" ++ nl
   ++ "          window.close();" ++ nl
   ++ "        </script>" ++ nl
   ++ "      ")%string.

(** [state !== storedState] *)
Definition differ (x y : option string) : bool :=
  match x, y with
  | Some s, Some t => negb (String.eqb s t)
  | None, None => false
  | _, _ => true
  end.

(** [githubCallback(code, state, req, res)], [storedState] being the
    cookie [github_oauth_state] of the request. *)
Definition githubCallback (cenv : ControllerEnv.t) (env : Env.t) (code : string)
  (state storedState : option string) : M HttpResponse.t :=
  let clientUrl := or_else (ControllerEnv.CLIENT_URL cenv) "http://localhost:3000" in
  if negb (truthy state) || negb (truthy storedState) || differ state storedState then
    ret {| HttpResponse.status := 400;
           HttpResponse.cookies := [];
           HttpResponse.cleared := [];
           HttpResponse.body := "Invalid state" |}
  else
    try_catch
      (access_token <- AuthService.loginWithGithub env code ;;
       ret {| HttpResponse.status := 200;
              HttpResponse.cookies :=
                [{| Cookie.name := "access_token";
                    Cookie.value := access_token;
                    Cookie.httpOnly := true;
                    Cookie.secure := AuthService.NODE_ENV_is env "production";
                    Cookie.sameSite := Some "lax";
                    Cookie.maxAge := 86400000;
                    Cookie.path := "/" |}];
              HttpResponse.cleared := ["github_oauth_state"];
              HttpResponse.body := success_page clientUrl |})
      (fun error =>
         let message := if is_Error error then message_of error else "unexpected error" in
         ret {| HttpResponse.status := 200;
                HttpResponse.cookies := [];
                HttpResponse.cleared := ["github_oauth_state"];
                HttpResponse.body :=
                  error_page (ControllerEnv.JSON_stringify cenv message) clientUrl |}).

(** [devLogin(body)] *)
Definition devLogin (env : Env.t) (email : string) : M DevLoginResult.t :=
  AuthService.devLogin env email.

End AuthController.

(** ** Functions used in the statements on the login service *)

(** A computation leaves the role and permission tables as they are. *)
Definition keeps_roles {A} (m : M A) : Prop :=
  forall db,
    roleMember (snd (m db)) = roleMember db
    /\ rolePermission (snd (m db)) = rolePermission db
    /\ permission (snd (m db)) = permission db.

(** The effective permissions of a member. *)
Definition permissions_of (memberId : Id) (db : Db) : list string :=
  match fst (AuthService.getUserPermissions memberId db) with
  | inr permissions => permissions
  | inl _ => []
  end.

(** The links drawn by [loginWithGithub], with their identifiers. *)
Definition login_links (githubUser : GithubProfile.t)
  (socialAccounts : list GithubSocial.t) (db : Db) : list (Id * (string * string)) :=
  (nextId db, ("github", GithubProfile.html_url githubUser))
  :: combine (seq (nextId (advance 1 db)) (List.length socialAccounts))
       (map (fun account => (GithubSocial.provider account, GithubSocial.url account))
          socialAccounts).

(** The member of a login and the store after the member and provider
    steps of [loginWithGithub], for the profile, the social accounts and
    the effective email. *)
Definition login_state (githubUser : GithubProfile.t)
  (socialAccounts : list GithubSocial.t) (email : string) (db : Db)
  : MemberWithProviders.t * Db :=
  let drawn := advance (List.length socialAccounts) (advance 1 db) in
  match find (fun m => String.eqb (Member.email m) email) (member db) with
  | None =>
      let created :=
        {| Member.id := S (nextId drawn);
           Member.email := email;
           Member.displayName :=
             or_else (GithubProfile.name githubUser) (GithubProfile.login githubUser);
           Member.avatarUrl := Some (GithubProfile.avatar_url githubUser);
           Member.organization := GithubProfile.company githubUser;
           Member.bio := GithubProfile.bio githubUser;
           Member.location := GithubProfile.location githubUser |} in
      let link :=
        {| MemberProvider.id := nextId drawn;
           MemberProvider.memberId := S (nextId drawn);
           MemberProvider.provider := "github";
           MemberProvider.providerUserId := String_of (GithubProfile.id githubUser) |} in
      ({| MemberWithProviders.member := created;
          MemberWithProviders.providers := [link] |},
       set_memberProvider (memberProvider db ++ [link])
         (set_memberLink
            (memberLink db
             ++ map (fun l => {| MemberLink.id := fst l;
                                 MemberLink.memberId := S (nextId drawn);
                                 MemberLink.type := fst (snd l);
                                 MemberLink.url := snd (snd l) |})
                  (login_links githubUser socialAccounts db))
            (set_member (member db ++ [created]) (advance 1 (advance 1 drawn)))))
  | Some m =>
      let user :=
        {| MemberWithProviders.member := m;
           MemberWithProviders.providers := providers_of (Member.id m) db |} in
      if some (fun p => String.eqb (MemberProvider.provider p) "github")
           (providers_of (Member.id m) db)
      then (user, drawn)
      else
        (user,
         set_memberProvider
           (memberProvider db
            ++ [{| MemberProvider.id := nextId drawn;
                   MemberProvider.memberId := Member.id m;
                   MemberProvider.provider := "github";
                   MemberProvider.providerUserId :=
                     String_of (GithubProfile.id githubUser) |}])
           (advance 1 drawn))
  end.

(** The payload signed for a member on a store. *)
Definition payload_of (m : Member.t) (db : Db) : JwtPayload.t :=
  {| JwtPayload.sub := Member.id m;
     JwtPayload.email := Member.email m;
     JwtPayload.permissions := permissions_of (Member.id m) db |}.


(** A member of the store is linked to the provider. *)
Definition has_provider (provider : string) (m : Member.t) (db : Db) : Prop :=
  exists p,
    In p (memberProvider db)
    /\ MemberProvider.memberId p = Member.id m
    /\ MemberProvider.provider p = provider.

(** The stored activity and a second one whose slug is [jsdc-taipei]. *)
Definition taipei_db : Db :=
  set_activity
    [stored_activity;
     {| Activity.id := 2%nat; Activity.name := "JSDC Taipei";
        Activity.slug := "jsdc-taipei";
        Activity.startAt := 5000; Activity.endAt := 6000; Activity.closedAt := None;
        Activity.supportedLanguages := ["zh-tw"] |}]
    (advance 3 empty_db).

(** * Properties *)

(** ** Helper facts on the built-ins *)

Lemma includes_In (l : list string) (x : string) :
  includes l x = true <-> In x l.
Proof.
  unfold includes. rewrite existsb_exists. split.
  - intros [y [Hy Heq]]. apply String.eqb_eq in Heq. now subst.
  - intros H. exists x. split; [assumption | apply String.eqb_refl].
Qed.

Lemma includes_not_In (l : list string) (x : string) :
  includes l x = false <-> ~ In x l.
Proof.
  rewrite <- includes_In. destruct (includes l x); split; congruence.
Qed.

Lemma length_gt0_nil {A} (l : list A) :
  (Z.of_nat (List.length l) >? 0) = false <-> l = [].
Proof.
  destruct l as [|a l]; simpl; split; intros H; try reflexivity; try discriminate.
Qed.

(** ** The permission guard *)

Section Guard.

Import PermissionGuard.

(** C6.  The guard allows a request whose route declares no permission
    list (neither on the handler nor on the class); it denies a request
    with a declared list and no authenticated caller; and with a declared
    list and a caller it allows exactly when every required permission is
    in the permission list of the caller. *)
Theorem canActivate_gate (context : ExecutionContext.t) :
  (ExecutionContext.handler_permissions context = None ->
   ExecutionContext.class_permissions context = None ->
   canActivate context = true)
  /\ (forall required,
        getAllAndOverride [ExecutionContext.handler_permissions context;
                           ExecutionContext.class_permissions context]
        = Some required ->
        ExecutionContext.user context = None ->
        canActivate context = false)
  /\ (forall required caller,
        getAllAndOverride [ExecutionContext.handler_permissions context;
                           ExecutionContext.class_permissions context]
        = Some required ->
        ExecutionContext.user context = Some caller ->
        (canActivate context = true <->
         forall permission, In permission required ->
                            In permission (AuthUser.permissions caller))).
Proof.
  unfold canActivate. split; [|split].
  - intros Hh Hc. rewrite Hh, Hc. reflexivity.
  - intros required Hreq Hu. rewrite Hreq, Hu. reflexivity.
  - intros required caller Hreq Hu. rewrite Hreq, Hu. simpl.
    unfold every. rewrite forallb_forall.
    split; intros Hall p Hp; apply includes_In, Hall, Hp.
Qed.

Lemma canActivate_gate_witness : canActivate guard_sample = true.
Proof.
  destruct (canActivate_gate guard_sample) as [_ [_ Hallow]].
  apply (Hallow ["activity:manage"]
           {| AuthUser.id := 1%nat;
              AuthUser.permissions := ["activity:view"; "activity:manage"];
              AuthUser.tokenVersion := None |}).
  - reflexivity.
  - reflexivity.
  - intros permission [<- | []]. simpl. right. left. reflexivity.
Defined.

End Guard.

(** ** Sets of strings and the effective permissions *)

Lemma Set_add_In (s : StringSet) (x y : string) :
  In y (Set_add s x) <-> In y s \/ y = x.
Proof.
  unfold Set_add. destruct (includes s x) eqn:E.
  - apply includes_In in E. split; [tauto | intros [H | ->]; assumption].
  - rewrite in_app_iff. simpl. split; intros [H | H]; auto.
    + destruct H as [H | []]. auto.
Qed.

Lemma Set_add_NoDup (s : StringSet) (x : string) :
  NoDup s -> NoDup (Set_add s x).
Proof.
  intros Hs. unfold Set_add. destruct (includes s x) eqn:E; [assumption|].
  apply includes_not_In in E.
  apply NoDup_rev in Hs. rewrite <- (rev_involutive (s ++ [x])).
  apply NoDup_rev. rewrite rev_app_distr. simpl. constructor; [|assumption].
  now rewrite <- in_rev.
Qed.

Lemma fold_Set_add_NoDup {A} (f : A -> string) (l : list A) (s : StringSet) :
  NoDup s -> NoDup (fold_left (fun acc a => Set_add acc (f a)) l s).
Proof.
  revert s. induction l as [|a l IH]; intros s Hs; simpl; [assumption|].
  apply IH, Set_add_NoDup, Hs.
Qed.

Lemma fold_Set_add_In {A} (f : A -> string) (l : list A) (s : StringSet) (y : string) :
  In y (fold_left (fun acc a => Set_add acc (f a)) l s)
  <-> In y s \/ exists a, In a l /\ f a = y.
Proof.
  revert s. induction l as [|a l IH]; intros s; simpl.
  - split; [auto | intros [H | [a [[] _]]]; assumption].
  - rewrite IH, Set_add_In. split.
    + intros [[H | ->] | [b [Hb Hf]]]; eauto.
    + intros [H | [b [[-> | Hb] Hf]]]; eauto.
Qed.

Section Permissions.

Import AuthService.

(** C10.  [getUserPermissions] always returns, leaves the store as it
    is, and its result has no duplicates: it lists each permission code
    granted through some role of the member once. *)
Theorem getUserPermissions_NoDup (memberId : Id) (db : Db) :
  exists permissions granted,
    getUserPermissions memberId db = (inr permissions, db)
    /\ rolePermission_findMany memberId db = (inr granted, db)
    /\ NoDup permissions
    /\ forall code,
         In code permissions <->
         exists rp, In rp granted /\ Permission.code (snd rp) = code.
Proof.
  eexists. eexists. split; [reflexivity|]. split; [reflexivity|]. split.
  - unfold Array_from. apply fold_Set_add_NoDup. constructor.
  - intros code. unfold Array_from.
    rewrite (fold_Set_add_In (fun rp => Permission.code (snd rp))).
    unfold Set_new. simpl. split; [intros [[] | H] | intros H]; auto.
Qed.

Example getUserPermissions_two_roles :
  fst (getUserPermissions 7%nat two_roles_db)
  = inr ["activity:manage"; "activity:view"].
Proof. reflexivity. Qed.

End Permissions.

(** ** Validation of the content languages *)

Lemma indexOf_range (l : list string) (x : string) :
  In x l -> 0 <= indexOf l x < Z.of_nat (List.length l).
Proof.
  induction l as [|y l IH]; simpl; [tauto|].
  intros Hin. destruct (String.eqb y x) eqn:E.
  - lia.
  - apply String.eqb_neq in E. destruct Hin as [Hy | Hin]; [congruence|].
    specialize (IH Hin). destruct (indexOf l x <? 0) eqn:Hneg.
    + apply Z.ltb_lt in Hneg. lia.
    + lia.
Qed.

Lemma indexOf_app_l (pre suf : list string) (x : string) :
  In x pre -> indexOf (pre ++ suf) x = indexOf pre x.
Proof.
  induction pre as [|y pre IH]; simpl; [tauto|].
  intros Hin. destruct (String.eqb y x) eqn:E; [reflexivity|].
  apply String.eqb_neq in E. destruct Hin as [Hy | Hin]; [congruence|].
  now rewrite IH.
Qed.

Lemma indexOf_first (pre suf : list string) (x : string) :
  ~ In x pre -> indexOf (pre ++ x :: suf) x = Z.of_nat (List.length pre).
Proof.
  induction pre as [|y pre IH]; simpl; intros Hn.
  - now rewrite String.eqb_refl.
  - destruct (String.eqb y x) eqn:E.
    + apply String.eqb_eq in E. tauto.
    + rewrite IH by tauto.
      destruct (Z.of_nat (List.length pre) <? 0) eqn:Hneg.
      * apply Z.ltb_lt in Hneg. lia.
      * lia.
Qed.

Lemma filter_from_later_dups (suf pre : list string) :
  filter_from (fun lang index => negb (indexOf (pre ++ suf) lang =? index))
    (Z.of_nat (List.length pre)) suf
  = later_dups pre suf.
Proof.
  revert pre. induction suf as [|x suf IH]; intros pre; simpl; [reflexivity|].
  assert (Hnext : Z.of_nat (List.length pre) + 1
                  = Z.of_nat (List.length (pre ++ [x]))).
  { rewrite length_app. simpl. lia. }
  assert (Hlist : pre ++ x :: suf = (pre ++ [x]) ++ suf).
  { rewrite <- app_assoc. reflexivity. }
  destruct (includes pre x) eqn:E.
  - apply includes_In in E.
    pose proof (indexOf_range pre x E) as Hr.
    rewrite (indexOf_app_l pre (x :: suf) x E).
    replace (indexOf pre x =? Z.of_nat (List.length pre)) with false
      by (symmetry; apply Z.eqb_neq; lia).
    simpl. f_equal. rewrite Hnext, Hlist. apply IH.
  - apply includes_not_In in E.
    rewrite (indexOf_first pre suf x E), Z.eqb_refl. simpl.
    rewrite Hnext, Hlist. apply IH.
Qed.

Lemma duplicateLangs_later_dups (l : list string) :
  ActivityService.duplicateLangs_of l = later_dups [] l.
Proof.
  unfold ActivityService.duplicateLangs_of, filteri.
  exact (filter_from_later_dups l []).
Qed.

Lemma later_dups_In (l seen : list string) (x : string) :
  In x (later_dups seen l)
  <-> In x l /\ (In x seen \/ (2 <= count_occ string_dec l x)%nat).
Proof.
  revert seen. induction l as [|y l IH]; intros seen; simpl; [tauto|].
  assert (Hstep : In x (later_dups (seen ++ [y]) l)
                  <-> In x l /\ ((In x seen \/ y = x)
                                 \/ (2 <= count_occ string_dec l x)%nat)).
  { rewrite IH, in_app_iff. simpl. tauto. }
  pose proof (count_occ_In string_dec l x) as Hcount.
  destruct (string_dec y x) as [-> | Hne].
  - destruct (includes seen x) eqn:E.
    + apply includes_In in E. simpl. rewrite Hstep. tauto.
    + apply includes_not_In in E. rewrite Hstep. split.
      * intros [Hin _]. split; [auto|]. right. apply Hcount in Hin. lia.
      * intros [_ [Hs | Hc]]; [tauto|]. split; [apply Hcount; lia | auto].
  - destruct (includes seen y) eqn:E.
    + simpl. rewrite Hstep. split.
      * intros [Hy | [Hin [[Hs | Hy] | Hc]]]; try congruence; auto.
      * intros [[Hy | Hin] Hor]; [congruence|]. right. tauto.
    + rewrite Hstep. split.
      * intros [Hin [[Hs | Hy] | Hc]]; try congruence; auto.
      * intros [[Hy | Hin] Hor]; [congruence|]. tauto.
Qed.

Lemma later_dups_nil (l : list string) :
  later_dups [] l = [] <-> NoDup l.
Proof.
  split.
  - intros Hnil. apply (NoDup_count_occ string_dec). intros x.
    destruct (le_lt_dec 2 (count_occ string_dec l x)) as [Hge | Hlt]; [|lia].
    exfalso. assert (Hin : In x (later_dups [] l)).
    { apply later_dups_In. split; [|auto].
      apply (count_occ_In string_dec). lia. }
    rewrite Hnil in Hin. destruct Hin.
  - intros Hnd. destruct (later_dups [] l) as [|x rest] eqn:E; [reflexivity|].
    exfalso. assert (Hin : In x (later_dups [] l)) by (rewrite E; now left).
    apply later_dups_In in Hin. destruct Hin as [_ [[] | Hc]].
    rewrite (NoDup_count_occ string_dec) in Hnd. specialize (Hnd x). lia.
Qed.

Lemma filter_nil_iff {A} (p : A -> bool) (l : list A) :
  filter p l = [] <-> forall x, In x l -> p x = false.
Proof.
  induction l as [|a l IH]; simpl.
  - split; [intros _ x [] | reflexivity].
  - destruct (p a) eqn:E.
    + split; [discriminate|]. intros H. specialize (H a (or_introl eq_refl)).
      congruence.
    + rewrite IH. split.
      * intros H x [<- | Hx]; auto.
      * intros H x Hx. apply H. now right.
Qed.

Section ContentLanguages.

Import ActivityService.

Variable contents : list ActivityContentDto.t.
Variable supportedLanguages : list string.

Let langs := map ActivityContentDto.lang contents.

Lemma validateContentLanguages_cases :
  match unsupportedLangs_of langs supportedLanguages with
  | _ :: _ =>
      validateContentLanguages contents supportedLanguages
      = inl (BadRequestException
               ("Contents contain unsupported languages: "
                ++ join ", " (unsupportedLangs_of langs supportedLanguages))%string)
  | [] =>
      match duplicateLangs_of langs with
      | _ :: _ =>
          validateContentLanguages contents supportedLanguages
          = inl (BadRequestException
                   ("Duplicate languages in contents: "
                    ++ join ", " (duplicateLangs_of langs))%string)
      | [] => validateContentLanguages contents supportedLanguages = inr tt
      end
  end.
Proof.
  unfold validateContentLanguages. fold langs.
  destruct (unsupportedLangs_of langs supportedLanguages) as [|u us]; simpl.
  - destruct (duplicateLangs_of langs) as [|d ds]; reflexivity.
  - reflexivity.
Qed.

Lemma unsupportedLangs_In (l : string) :
  In l (unsupportedLangs_of langs supportedLanguages)
  <-> In l langs /\ ~ In l supportedLanguages.
Proof.
  unfold unsupportedLangs_of. rewrite filter_In.
  rewrite negb_true_iff, includes_not_In. reflexivity.
Qed.

Lemma unsupportedLangs_nil :
  unsupportedLangs_of langs supportedLanguages = []
  <-> forall l, In l langs -> In l supportedLanguages.
Proof.
  unfold unsupportedLangs_of. rewrite filter_nil_iff. split.
  - intros H l Hl. specialize (H l Hl). rewrite negb_false_iff in H.
    now apply includes_In.
  - intros H l Hl. rewrite negb_false_iff. apply includes_In. auto.
Qed.

Lemma duplicateLangs_In (l : string) :
  In l (duplicateLangs_of langs) <-> (2 <= count_occ string_dec langs l)%nat.
Proof.
  rewrite duplicateLangs_later_dups, later_dups_In. split.
  - intros [_ [[] | H]]. exact H.
  - intros H. split; [|auto]. apply (count_occ_In string_dec). lia.
Qed.

Lemma duplicateLangs_nil : duplicateLangs_of langs = [] <-> NoDup langs.
Proof. rewrite duplicateLangs_later_dups. apply later_dups_nil. Qed.

Lemma validateContentLanguages_accepts :
  validateContentLanguages contents supportedLanguages = inr tt
  <-> (forall l, In l langs -> In l supportedLanguages) /\ NoDup langs.
Proof.
  pose proof validateContentLanguages_cases as Hcases.
  rewrite <- unsupportedLangs_nil, <- duplicateLangs_nil.
  destruct (unsupportedLangs_of langs supportedLanguages) as [|u us].
  - destruct (duplicateLangs_of langs) as [|d ds]; rewrite Hcases.
    + tauto.
    + split; [discriminate | intros [_ H]; discriminate].
  - rewrite Hcases. split; [discriminate | intros [H _]; discriminate].
Qed.

Lemma validateContentLanguages_rejects :
  validateContentLanguages contents supportedLanguages = inr tt
  \/ exists message,
       validateContentLanguages contents supportedLanguages
       = inl (BadRequestException message).
Proof.
  pose proof validateContentLanguages_cases as Hcases.
  destruct (unsupportedLangs_of langs supportedLanguages) as [|u us].
  - destruct (duplicateLangs_of langs) as [|d ds]; rewrite Hcases; eauto.
  - rewrite Hcases; eauto.
Qed.

(** C4.  The validation accepts a content list exactly when every [lang]
    is in [supportedLanguages] and no [lang] is repeated; it rejects with
    a validation failure exactly when some [lang] is unsupported or some
    [lang] occurs twice.  When a [lang] is unsupported the message lists
    exactly the unsupported languages; when all are supported and one is
    repeated the message lists exactly the repeated languages. *)
Theorem validateContentLanguages_spec :
  (validateContentLanguages contents supportedLanguages = inr tt
   <-> (forall l, In l langs -> In l supportedLanguages) /\ NoDup langs)
  /\ ((exists message,
         validateContentLanguages contents supportedLanguages
         = inl (BadRequestException message))
      <-> (exists l, In l langs /\ ~ In l supportedLanguages)
          \/ (exists l, (2 <= count_occ string_dec langs l)%nat))
  /\ ((exists l, In l langs /\ ~ In l supportedLanguages) ->
      exists named,
        validateContentLanguages contents supportedLanguages
        = inl (BadRequestException
                 ("Contents contain unsupported languages: "
                  ++ join ", " named)%string)
        /\ forall l, In l named <-> In l langs /\ ~ In l supportedLanguages)
  /\ ((forall l, In l langs -> In l supportedLanguages) ->
      (exists l, (2 <= count_occ string_dec langs l)%nat) ->
      exists named,
        validateContentLanguages contents supportedLanguages
        = inl (BadRequestException
                 ("Duplicate languages in contents: "
                  ++ join ", " named)%string)
        /\ forall l, In l named <-> (2 <= count_occ string_dec langs l)%nat).
Proof.
  pose proof validateContentLanguages_cases as Hcases.
  pose proof unsupportedLangs_nil as Hunil.
  pose proof duplicateLangs_nil as Hdnil.
  destruct (unsupportedLangs_of langs supportedLanguages) as [|u us] eqn:Eu.
  - assert (Hall : forall l, In l langs -> In l supportedLanguages)
      by (now apply Hunil).
    destruct (duplicateLangs_of langs) as [|d ds] eqn:Ed.
    + assert (Hnd : NoDup langs) by (now apply Hdnil).
      rewrite Hcases. repeat split; auto.
      * intros [m Hm]. discriminate.
      * intros [[l [Hl Hn]] | [l Hl]]; [exfalso; auto|].
        exfalso. apply duplicateLangs_In in Hl. rewrite Ed in Hl. destruct Hl.
      * intros [l [Hl Hn]]. exfalso. auto.
      * intros _ [l Hl]. exfalso.
        apply duplicateLangs_In in Hl. rewrite Ed in Hl. destruct Hl.
    + assert (Hd : In d (duplicateLangs_of langs)) by (rewrite Ed; now left).
      apply duplicateLangs_In in Hd.
      rewrite Hcases. repeat split; try discriminate.
      * intros [_ Hnd]. apply Hdnil in Hnd. discriminate.
      * intros _. right. eauto.
      * intros _. eauto.
      * intros [l [Hl Hn]]. exfalso. auto.
      * intros _ _. exists (d :: ds). split; [reflexivity|].
        intros l. rewrite <- Ed. apply duplicateLangs_In.
  - assert (Hu : In u (unsupportedLangs_of langs supportedLanguages))
      by (rewrite Eu; now left).
    apply unsupportedLangs_In in Hu.
    rewrite Hcases. repeat split; try discriminate.
    + intros [Hall _]. apply Hunil in Hall. discriminate.
    + intros _. left. eauto.
    + intros _. eauto.
    + intros _. exists (u :: us). split; [reflexivity|].
      intros l. rewrite <- Eu. apply unsupportedLangs_In.
    + intros Hall. apply Hunil in Hall. discriminate.
Qed.

End ContentLanguages.

Lemma validateContentLanguages_spec_witness :
  exists named,
    ActivityService.validateContentLanguages [content_en; content_fr] ["en-us"; "zh-tw"]
    = inl (BadRequestException
             ("Contents contain unsupported languages: " ++ join ", " named)%string)
    /\ forall l, In l named <->
                 In l ["en-us"; "fr-fr"] /\ ~ In l ["en-us"; "zh-tw"].
Proof.
  destruct (validateContentLanguages_spec [content_en; content_fr] ["en-us"; "zh-tw"])
    as [_ [_ [Hunsupported _]]].
  apply Hunsupported. exists "fr-fr". split.
  - simpl. auto.
  - simpl. intros [H | [H | []]]; discriminate.
Defined.

(** The example of the specification: [fr-fr] is listed as unsupported. *)
Example validateContentLanguages_fr :
  ActivityService.validateContentLanguages [content_en; content_fr] ["en-us"; "zh-tw"]
  = inl (BadRequestException "Contents contain unsupported languages: fr-fr").
Proof. reflexivity. Qed.

Example validateContentLanguages_repeated :
  ActivityService.validateContentLanguages [content_en; content_zh; content_en]
    ["en-us"; "zh-tw"]
  = inl (BadRequestException "Duplicate languages in contents: en-us").
Proof. reflexivity. Qed.

(** ** Creation of an activity *)

Lemma advance_advance (n m : nat) (db : Db) :
  advance n (advance m db) = advance (n + m) db.
Proof. unfold advance. simpl. f_equal. lia. Qed.

Lemma withId_advance (db : Db) : withId db = (inr (nextId db), advance 1 db).
Proof. reflexivity. Qed.

Lemma mapM_withId {A} (xs : list A) (db : Db) :
  mapM (fun x => id <- withId ;; ret (id, x)) xs db
  = (inr (combine (seq (nextId db) (List.length xs)) xs),
     advance (List.length xs) db).
Proof.
  revert db. induction xs as [|x xs IH]; intros db.
  - simpl. unfold ret, advance. destruct db; reflexivity.
  - simpl. unfold bind at 1. unfold bind at 1. rewrite withId_advance.
    unfold ret at 1. unfold bind at 1. rewrite IH. unfold ret.
    rewrite advance_advance. simpl. f_equal. f_equal. lia.
Qed.

Lemma validateDates_accepts (startAt endAt : Date) (closedAt : Optional Date) :
  ActivityService.validateDates startAt endAt closedAt = inr tt
  <-> date_order_ok startAt endAt closedAt.
Proof.
  unfold ActivityService.validateDates, date_order_ok.
  destruct (endAt <=? startAt) eqn:E.
  - apply Z.leb_le in E. split; [discriminate | lia].
  - apply Z.leb_gt in E. destruct closedAt as [| |c]; try tauto.
    simpl. destruct (c >=? startAt) eqn:Ec.
    + apply Z.geb_le in Ec. split; [discriminate | lia].
    + rewrite Z.geb_leb in Ec. apply Z.leb_gt in Ec. tauto.
Qed.

Lemma validateDates_rejects (startAt endAt : Date) (closedAt : Optional Date) :
  ActivityService.validateDates startAt endAt closedAt = inr tt
  \/ exists message,
       ActivityService.validateDates startAt endAt closedAt
       = inl (BadRequestException message).
Proof.
  unfold ActivityService.validateDates.
  destruct (endAt <=? startAt); [eauto|].
  destruct closedAt as [| |c]; auto.
  destruct (truthy c && (c >=? startAt)); eauto.
Qed.

Lemma find_slug_taken (slug : string) (db : Db) :
  (exists a, find (fun a => String.eqb (Activity.slug a) slug) (activity db) = Some a)
  <-> slug_taken slug db.
Proof.
  unfold slug_taken. split.
  - intros [a Ha]. apply find_some in Ha. destruct Ha as [Hin Heq].
    apply String.eqb_eq in Heq. eauto.
  - intros [a [Hin Heq]].
    destruct (find (fun a => String.eqb (Activity.slug a) slug) (activity db))
      as [b|] eqn:E; [eauto|].
    exfalso. apply (find_none _ _ E) in Hin.
    rewrite Heq, String.eqb_refl in Hin. discriminate.
Qed.

Lemma checkSlugExists_cases (slug : string) (db : Db) :
  (slug_taken slug db
   /\ ActivityService.checkSlugExists slug db
      = (inl (ConflictException
                ("Activity with slug " ++ ActivityService.dquote ++ slug
                 ++ ActivityService.dquote ++ " already exists")%string), db))
  \/ (~ slug_taken slug db
      /\ ActivityService.checkSlugExists slug db = (inr tt, db)).
Proof.
  pose proof (find_slug_taken slug db) as Htaken.
  unfold ActivityService.checkSlugExists, activity_findUnique_slug, bind, gets.
  destruct (find (fun a => String.eqb (Activity.slug a) slug) (activity db))
    as [a|] eqn:E.
  - left. split; [apply Htaken; eauto | reflexivity].
  - right. split; [|reflexivity]. intros H. apply Htaken in H.
    destruct H as [a Ha]. discriminate.
Qed.

Section Create.

Import ActivityService.

Variable dto : CreateActivityDto.t.
Variable db : Db.

Let dates :=
  validateDates (CreateActivityDto.startAt dto) (CreateActivityDto.endAt dto)
    (CreateActivityDto.closedAt dto).

Let languages :=
  validateContentLanguages (CreateActivityDto.contents dto)
    (CreateActivityDto.supportedLanguages dto).

(** The four ways [create] can end, in the order of its checks. *)
Lemma create_cases :
  (exists message,
     dates = inl (BadRequestException message)
     /\ create dto db = (inl (BadRequestException message), db))
  \/ (dates = inr tt
      /\ slug_taken (CreateActivityDto.slug dto) db
      /\ create dto db
         = (inl (ConflictException
                   ("Activity with slug " ++ dquote ++ CreateActivityDto.slug dto
                    ++ dquote ++ " already exists")%string), db))
  \/ (dates = inr tt
      /\ ~ slug_taken (CreateActivityDto.slug dto) db
      /\ exists message,
           languages = inl (BadRequestException message)
           /\ create dto db = (inl (BadRequestException message), db))
  \/ (dates = inr tt
      /\ ~ slug_taken (CreateActivityDto.slug dto) db
      /\ languages = inr tt
      /\ exists created db', create dto db = (inr created, db')).
Proof.
  unfold create. fold dates. fold languages.
  destruct (validateDates_rejects (CreateActivityDto.startAt dto)
              (CreateActivityDto.endAt dto) (CreateActivityDto.closedAt dto))
    as [Hd | [m Hd]]; fold dates in Hd.
  2:{ left. exists m. split; [assumption|]. unfold bind, lift. now rewrite Hd. }
  right.
  destruct (checkSlugExists_cases (CreateActivityDto.slug dto) db)
    as [[Ht Hs] | [Ht Hs]].
  { left. repeat split; try assumption.
    unfold bind at 1. unfold lift at 1. rewrite Hd.
    unfold bind at 1. rewrite Hs. reflexivity. }
  right.
  destruct (validateContentLanguages_rejects (CreateActivityDto.contents dto)
              (CreateActivityDto.supportedLanguages dto))
    as [Hl | [m Hl]]; fold languages in Hl.
  2:{ left. repeat split; try assumption. exists m. split; [assumption|].
      unfold bind at 1. unfold lift at 1. rewrite Hd.
      unfold bind at 1. rewrite Hs.
      unfold bind, lift. now rewrite Hl. }
  right. repeat split; try assumption.
  unfold bind at 1. unfold lift at 1. rewrite Hd.
  unfold bind at 1. rewrite Hs.
  unfold bind at 1. unfold lift at 1. rewrite Hl.
  unfold bind at 1. rewrite mapM_withId.
  unfold bind at 1. rewrite withId_advance.
  unfold activity_create, bind, modify, ret. eauto.
Qed.

End Create.

Section CreateClaims.

Import ActivityService.

(** C1 (amended).  An input that violates the order of dates ([endAt] not
    strictly after [startAt], or a [closedAt] that is present and not
    strictly before [startAt]) is rejected with a validation failure and
    nothing is written.  For an input whose slug is free and whose
    contents pass the language validation, creation succeeds exactly when
    the order of dates holds. *)
Theorem create_date_order (dto : CreateActivityDto.t) (db : Db) :
  (~ date_order_ok (CreateActivityDto.startAt dto) (CreateActivityDto.endAt dto)
       (CreateActivityDto.closedAt dto) ->
   exists message, create dto db = (inl (BadRequestException message), db))
  /\ (~ slug_taken (CreateActivityDto.slug dto) db ->
      validateContentLanguages (CreateActivityDto.contents dto)
        (CreateActivityDto.supportedLanguages dto) = inr tt ->
      (is_ok (fst (create dto db)) = true
       <-> date_order_ok (CreateActivityDto.startAt dto) (CreateActivityDto.endAt dto)
             (CreateActivityDto.closedAt dto))).
Proof.
  pose proof (validateDates_accepts (CreateActivityDto.startAt dto)
                (CreateActivityDto.endAt dto) (CreateActivityDto.closedAt dto))
    as Hdates.
  destruct (create_cases dto db)
    as [[m [Hd Hc]] | [[Hd [Ht Hc]] | [[Hd [Ht [m [Hl Hc]]]] | [Hd [Ht [Hl [r [db' Hc]]]]]]]];
    rewrite Hc; simpl; split.
  - eauto.
  - intros _ _. split; [discriminate|]. intros H. apply Hdates in H. congruence.
  - intros H. exfalso. apply H, Hdates, Hd.
  - intros Hfree. tauto.
  - intros H. exfalso. apply H, Hdates, Hd.
  - intros _ Hok. congruence.
  - intros H. exfalso. apply H, Hdates, Hd.
  - intros _ _. split; [intros _; apply Hdates, Hd | reflexivity].
Qed.

Lemma create_date_order_witness :
  is_ok (fst (create (create_dto "jsdc-2026" 1000 2000 (defined 500) [content_en])
                stored_db)) = true.
Proof.
  apply (create_date_order
           (create_dto "jsdc-2026" 1000 2000 (defined 500) [content_en]) stored_db).
  - intros [a [Hin Heq]]. simpl in Hin. destruct Hin as [<- | []]. discriminate.
  - reflexivity.
  - unfold date_order_ok. simpl. lia.
Defined.

(** Good dates do not make creation succeed: the slug is taken. *)
Lemma create_good_dates_conflict :
  date_order_ok 1000 2000 undefined
  /\ create (create_dto "jsdc-2025" 1000 2000 undefined [content_en]) stored_db
     = (inl (ConflictException
               ("Activity with slug " ++ dquote ++ "jsdc-2025" ++ dquote
                ++ " already exists")%string), stored_db).
Proof. split; [unfold date_order_ok; lia | reflexivity]. Qed.

(** The examples of the specification, with days as time values. *)
Example create_end_before_start :
  fst (create (create_dto "jsdc-2026" 10 5 undefined [content_en]) stored_db)
  = inl (BadRequestException "End date must be after start date").
Proof. reflexivity. Qed.

Example create_closed_after_start :
  fst (create (create_dto "jsdc-2026" 10 20 (defined 15) [content_en]) stored_db)
  = inl (BadRequestException "Closed date must be before start date").
Proof. reflexivity. Qed.

Example create_end_equals_start :
  fst (create (create_dto "jsdc-2026" 10 10 undefined [content_en]) stored_db)
  = inl (BadRequestException "End date must be after start date").
Proof. reflexivity. Qed.

Example create_closed_equals_start :
  fst (create (create_dto "jsdc-2026" 10 20 (defined 10) [content_en]) stored_db)
  = inl (BadRequestException "Closed date must be before start date").
Proof. reflexivity. Qed.

(** C5 (amended).  A create input whose slug belongs to a stored activity
    never succeeds, and it ends in a conflict failure when its dates pass
    the date check (which runs first).  Whenever [create] fails, with a
    validation failure or a conflict failure, the store is left as it
    was. *)
Theorem create_conflict_no_write (dto : CreateActivityDto.t) (db : Db) :
  (slug_taken (CreateActivityDto.slug dto) db ->
   is_ok (fst (create dto db)) = false)
  /\ (slug_taken (CreateActivityDto.slug dto) db ->
      date_order_ok (CreateActivityDto.startAt dto) (CreateActivityDto.endAt dto)
        (CreateActivityDto.closedAt dto) ->
      fst (create dto db)
      = inl (ConflictException
               ("Activity with slug " ++ dquote ++ CreateActivityDto.slug dto
                ++ dquote ++ " already exists")%string))
  /\ (forall e,
        fst (create dto db) = inl e ->
        snd (create dto db) = db
        /\ exists message,
             e = BadRequestException message \/ e = ConflictException message).
Proof.
  pose proof (validateDates_accepts (CreateActivityDto.startAt dto)
                (CreateActivityDto.endAt dto) (CreateActivityDto.closedAt dto))
    as Hdates.
  destruct (create_cases dto db)
    as [[m [Hd Hc]] | [[Hd [Ht Hc]] | [[Hd [Ht [m [Hl Hc]]]] | [Hd [Ht [Hl [r [db' Hc]]]]]]]];
    rewrite Hc; simpl; (split; [|split]); try tauto; try discriminate.
  - intros _ Hok. apply Hdates in Hok. congruence.
  - intros e He. injection He as <-. eauto.
  - intros e He. injection He as <-. eauto.
  - intros e He. injection He as <-. eauto.
Qed.

Lemma create_conflict_no_write_witness :
  fst (create (create_dto "jsdc-2025" 1000 2000 null [content_zh]) stored_db)
  = inl (ConflictException
           ("Activity with slug " ++ dquote ++ "jsdc-2025" ++ dquote
            ++ " already exists")%string).
Proof.
  apply (create_conflict_no_write
           (create_dto "jsdc-2025" 1000 2000 null [content_zh]) stored_db).
  - exists stored_activity. split; [left|]; reflexivity.
  - unfold date_order_ok. simpl. lia.
Defined.

(** A taken slug with a wrong order of dates: a validation failure, not
    a conflict. *)
Lemma create_taken_slug_bad_dates :
  slug_taken "jsdc-2025" stored_db
  /\ create (create_dto "jsdc-2025" 2000 1000 undefined [content_en]) stored_db
     = (inl (BadRequestException "End date must be after start date"), stored_db).
Proof.
  split; [|reflexivity].
  exists stored_activity. split; [left|]; reflexivity.
Qed.

End CreateClaims.

(** ** Update of an activity *)

Lemma update_first_found {A} (p : A -> bool) (f : A -> A) (l : list A) (a : A) :
  find p l = Some a ->
  p (f a) = true ->
  exists l', update_first p f l = Some l' /\ find p l' = Some (f a).
Proof.
  induction l as [|x l IH]; simpl; [discriminate|].
  intros Hfind Hp. destruct (p x) eqn:E.
  - injection Hfind as ->. eexists. split; [reflexivity|]. simpl. now rewrite Hp.
  - destruct (IH Hfind Hp) as [l' [Hu Hf]]. rewrite Hu. simpl.
    eexists. split; [reflexivity|]. simpl. now rewrite E.
Qed.

Lemma update_first_fixed {A} (p : A -> bool) (f : A -> A) (l : list A) (a : A) :
  find p l = Some a -> f a = a -> update_first p f l = Some l.
Proof.
  induction l as [|x l IH]; simpl; [discriminate|].
  intros Hfind Hf. destruct (p x) eqn:E.
  - injection Hfind as ->. now rewrite Hf.
  - now rewrite (IH Hfind Hf).
Qed.

Lemma update_first_app_Some {A} (p : A -> bool) (f : A -> A) (l l' t : list A) :
  update_first p f l = Some l' -> update_first p f (l ++ t) = Some (l' ++ t).
Proof.
  revert l'. induction l as [|x l IH]; simpl; intros l'; [discriminate|].
  destruct (p x).
  - intros H. injection H as <-. reflexivity.
  - destruct (update_first p f l) as [r|]; simpl; [|discriminate].
    intros H. injection H as <-. now rewrite (IH r eq_refl).
Qed.

Lemma update_first_app_None {A} (p : A -> bool) (f : A -> A) (l t : list A) :
  update_first p f l = None ->
  update_first p f (l ++ t) = option_map (app l) (update_first p f t).
Proof.
  induction l as [|x l IH]; simpl.
  - intros _. now destruct (update_first p f t).
  - destruct (p x); [discriminate|].
    destruct (update_first p f l) as [r|]; simpl; [discriminate|].
    intros _. rewrite (IH eq_refl). now destruct (update_first p f t).
Qed.

Lemma set_advance_upsert (X : list ActivityContent.t) (n : nat) (db : Db) :
  advance n (set_activityContent X (advance 1 db))
  = set_activityContent X (advance (S n) db).
Proof. unfold advance, set_activityContent. simpl. f_equal. lia. Qed.

Lemma upsert_content_run (id : Id) (c : ActivityContentDto.t) (db : Db) :
  ActivityService.upsert_content id c db
  = (inr tt,
     set_activityContent (upsert_row id c (nextId db) (activityContent db))
       (advance 1 db)).
Proof.
  unfold ActivityService.upsert_content, bind. rewrite withId_advance.
  unfold activityContent_upsert, modify, upsert_row. f_equal.
  change (activityContent (advance 1 db)) with (activityContent db).
  fold (set_text c).
  destruct (update_first (same_key id (ActivityContentDto.lang c)) (set_text c)
              (activityContent db)); reflexivity.
Qed.

Lemma mapM_upsert_content (id : Id) (cs : list ActivityContentDto.t) (db : Db) :
  mapM (ActivityService.upsert_content id) cs db
  = (inr (map (fun _ => tt) cs),
     set_activityContent (upsert_rows id cs (nextId db) (activityContent db))
       (advance (List.length cs) db)).
Proof.
  revert db. induction cs as [|c cs IH]; intros db.
  - simpl. unfold ret, advance, set_activityContent. destruct db; reflexivity.
  - simpl. unfold bind at 1. rewrite upsert_content_run.
    unfold bind at 1. rewrite IH. unfold ret. simpl.
    f_equal. unfold advance, set_activityContent. simpl. f_equal. lia.
Qed.

Lemma checkSlugExists_db (slug : string) (db : Db) :
  ActivityService.checkSlugExists slug db
  = (fst (ActivityService.checkSlugExists slug db), db).
Proof.
  destruct (checkSlugExists_cases slug db) as [[_ H] | [_ H]]; now rewrite H.
Qed.

Section UpdateRun.

Import ActivityService.

Variable id : Id.
Variable dto : UpdateActivityDto.t.
Variable db : Db.

Lemma update_not_found :
  find (fun a => Nat.eqb (Activity.id a) id) (activity db) = None ->
  update id dto db = (inl (NotFoundException "Activity not found"), db).
Proof.
  intros Hfind. unfold update, findOneById, activity_findUnique_id, bind at 1.
  unfold bind at 1. unfold gets, activity_with_contents. rewrite Hfind. reflexivity.
Qed.

(** [update] on an existing activity: the three checks, then the writes. *)
Lemma update_found (a : Activity.t) :
  find (fun a => Nat.eqb (Activity.id a) id) (activity db) = Some a ->
  update id dto db
  = match update_date_check dto a with
    | inl e => (inl e, db)
    | inr _ =>
        match update_slug_check dto a db with
        | inl e => (inl e, db)
        | inr _ =>
            match update_content_check dto a with
            | inl e => (inl e, db)
            | inr _ =>
                (inr (activity_with_contents id (update_written id dto db)),
                 update_written id dto db)
            end
        end
    end.
Proof.
  intros Hfind.
  assert (Hid : Nat.eqb (Activity.id a) id = true).
  { apply find_some in Hfind. tauto. }
  destruct (update_first_found (fun a => Nat.eqb (Activity.id a) id)
              (update_data dto) (activity db) a Hfind Hid) as [l' [Hupd _]].
  unfold update, findOneById, activity_findUnique_id. unfold bind at 1.
  unfold bind at 1. unfold gets at 1, activity_with_contents at 1.
  rewrite Hfind. unfold ret at 1. cbv beta iota.
  change (ActivityWithContents.activity
            {| ActivityWithContents.activity := a;
               ActivityWithContents.contents := contents_of (Activity.id a) db |})
    with a.
  unfold bind at 1. fold (update_date_check dto a).
  assert (Hdate : (if truthy (UpdateActivityDto.startAt dto)
                      || truthy (UpdateActivityDto.endAt dto)
                      || match UpdateActivityDto.closedAt dto with
                         | undefined => false
                         | _ => true
                         end
                   then lift (validateDates
                                (or_else (UpdateActivityDto.startAt dto) (Activity.startAt a))
                                (or_else (UpdateActivityDto.endAt dto) (Activity.endAt a))
                                (merged_closedAt dto a))
                   else ret tt) db
                  = (update_date_check dto a, db)).
  { unfold update_date_check.
    destruct (truthy (UpdateActivityDto.startAt dto)
              || truthy (UpdateActivityDto.endAt dto)
              || match UpdateActivityDto.closedAt dto with
                 | undefined => false
                 | _ => true
                 end); reflexivity. }
  rewrite Hdate. destruct (update_date_check dto a) as [e|[]]; [reflexivity|].
  unfold bind at 1.
  assert (Hslug : match UpdateActivityDto.slug dto with
                  | Some slug =>
                      if truthy slug && negb (String.eqb slug (Activity.slug a))
                      then checkSlugExists slug
                      else ret tt
                  | None => ret tt
                  end db
                  = (update_slug_check dto a db, db)).
  { unfold update_slug_check. destruct (UpdateActivityDto.slug dto) as [slug|];
      [|reflexivity].
    destruct (truthy slug && negb (String.eqb slug (Activity.slug a)));
      [apply checkSlugExists_db | reflexivity]. }
  rewrite Hslug. destruct (update_slug_check dto a db) as [e|[]]; [reflexivity|].
  unfold bind at 1.
  assert (Hcontent : match UpdateActivityDto.contents dto with
                     | Some contents =>
                         lift (validateContentLanguages contents
                                 (or_else (UpdateActivityDto.supportedLanguages dto)
                                    (Activity.supportedLanguages a)))
                     | None => ret tt
                     end db
                     = (update_content_check dto a, db)).
  { unfold update_content_check.
    destruct (UpdateActivityDto.contents dto); reflexivity. }
  rewrite Hcontent. destruct (update_content_check dto a) as [e|[]]; [reflexivity|].
  unfold transaction, update_written. unfold bind at 1.
  unfold activity_update. rewrite Hupd.
  destruct (UpdateActivityDto.contents dto) as [cs|].
  - unfold bind at 1. unfold bind at 1. rewrite mapM_upsert_content.
    unfold ret at 1. unfold activity_findUnique_id, gets. reflexivity.
  - unfold bind at 1. unfold ret at 1. unfold activity_findUnique_id, gets.
    reflexivity.
Qed.

End UpdateRun.

Lemma update_written_activity (id : Id) (dto : UpdateActivityDto.t) (db : Db)
  (a : Activity.t) :
  find (fun a => Nat.eqb (Activity.id a) id) (activity db) = Some a ->
  find (fun a => Nat.eqb (Activity.id a) id) (activity (update_written id dto db))
  = Some (ActivityService.update_data dto a).
Proof.
  intros Hfind.
  assert (Hid : Nat.eqb (Activity.id a) id = true).
  { apply find_some in Hfind. tauto. }
  destruct (update_first_found (fun a => Nat.eqb (Activity.id a) id)
              (ActivityService.update_data dto) (activity db) a Hfind Hid)
    as [l' [Hupd Hfind']].
  unfold update_written. rewrite Hupd.
  destruct (UpdateActivityDto.contents dto); exact Hfind'.
Qed.

Lemma update_success (id : Id) (dto : UpdateActivityDto.t) (db db' : Db)
  (a : Activity.t) (r : option ActivityWithContents.t) :
  find (fun a => Nat.eqb (Activity.id a) id) (activity db) = Some a ->
  ActivityService.update id dto db = (inr r, db') ->
  update_date_check dto a = inr tt
  /\ update_slug_check dto a db = inr tt
  /\ update_content_check dto a = inr tt
  /\ db' = update_written id dto db
  /\ r = activity_with_contents id db'.
Proof.
  intros Hfind Hrun. rewrite (update_found id dto db a Hfind) in Hrun.
  destruct (update_date_check dto a) as [e|[]]; [discriminate|].
  destruct (update_slug_check dto a db) as [e|[]]; [discriminate|].
  destruct (update_content_check dto a) as [e|[]]; [discriminate|].
  injection Hrun as Hr Hdb. subst. auto.
Qed.

Section UpdateClosedAt.

Import ActivityService.

(** C3.  On an existing activity [a], a successful [update] stores the
    [closedAt] of the payload when it is not [undefined] ([null] clears
    the stored value) and keeps the stored value when it is [undefined];
    the two calls end in different stores when there was a value to
    clear.  When a date field is supplied, the dates are validated with
    the supplied [closedAt] if it is not [undefined] and with the stored
    one otherwise, and a failure of that validation is the outcome of
    [update]. *)
Theorem update_closedAt (id : Id) (dto : UpdateActivityDto.t) (db db' : Db)
  (a : Activity.t) (r : option ActivityWithContents.t) :
  find (fun a => Nat.eqb (Activity.id a) id) (activity db) = Some a ->
  (update id dto db = (inr r, db') ->
   exists a',
     find (fun a => Nat.eqb (Activity.id a) id) (activity db') = Some a'
     /\ Activity.closedAt a'
        = match UpdateActivityDto.closedAt dto with
          | undefined => Activity.closedAt a
          | null => None
          | defined d => Some d
          end)
  /\ (forall omitted r2 db2,
        UpdateActivityDto.closedAt dto = null ->
        UpdateActivityDto.closedAt omitted = undefined ->
        Activity.closedAt a <> None ->
        update id dto db = (inr r, db') ->
        update id omitted db = (inr r2, db2) ->
        db' <> db2)
  /\ (truthy (UpdateActivityDto.startAt dto)
      || truthy (UpdateActivityDto.endAt dto)
      || match UpdateActivityDto.closedAt dto with
         | undefined => false
         | _ => true
         end = true ->
      let merged :=
        match UpdateActivityDto.closedAt dto with
        | undefined =>
            match Activity.closedAt a with
            | Some d => defined d
            | None => null
            end
        | supplied => supplied
        end in
      let checked :=
        validateDates
          (or_else (UpdateActivityDto.startAt dto) (Activity.startAt a))
          (or_else (UpdateActivityDto.endAt dto) (Activity.endAt a))
          merged in
      (forall e, checked = inl e -> update id dto db = (inl e, db))
      /\ (update id dto db = (inr r, db') -> checked = inr tt)).
Proof.
  intros Hfind.
  assert (Hstored : forall d r1 db1,
             update id d db = (inr r1, db1) ->
             find (fun a => Nat.eqb (Activity.id a) id) (activity db1)
             = Some (update_data d a)).
  { intros d r1 db1 Hrun.
    destruct (update_success id d db db1 a r1 Hfind Hrun) as [_ [_ [_ [-> _]]]].
    now apply update_written_activity. }
  split; [|split].
  - intros Hrun. exists (update_data dto a). split; [eauto|].
    simpl. destruct (UpdateActivityDto.closedAt dto); reflexivity.
  - intros omitted r2 db2 Hnull Homitted Hsome Hrun Hrun2 Heq.
    apply Hstored in Hrun. apply Hstored in Hrun2. rewrite Heq in Hrun.
    assert (Hdata : update_data dto a = update_data omitted a) by congruence.
    apply (f_equal Activity.closedAt) in Hdata. simpl in Hdata.
    rewrite Hnull, Homitted in Hdata. simpl in Hdata. congruence.
  - intros Hany merged checked.
    assert (Hcheck : update_date_check dto a = checked).
    { unfold update_date_check. rewrite Hany. reflexivity. }
    split.
    + intros e He. rewrite (update_found id dto db a Hfind), Hcheck, He.
      reflexivity.
    + intros Hrun.
      destruct (update_success id dto db db' a r Hfind Hrun) as [Hd _].
      congruence.
Qed.

Lemma update_closedAt_witness :
  exists a',
    find (fun a => Nat.eqb (Activity.id a) 1%nat)
      (activity (update_written 1%nat (closedAt_dto null) stored_db)) = Some a'
    /\ Activity.closedAt a' = None.
Proof.
  destruct (update_closedAt 1%nat (closedAt_dto null) stored_db
              (update_written 1%nat (closedAt_dto null) stored_db)
              stored_activity
              (activity_with_contents 1%nat
                 (update_written 1%nat (closedAt_dto null) stored_db))
              eq_refl) as [Hstored _].
  apply Hstored. reflexivity.
Defined.

(** Clearing [closedAt] and leaving it out, on the stored activity. *)
Example closedAt_cleared_example :
  option_map Activity.closedAt
    (find (fun a => Nat.eqb (Activity.id a) 1%nat)
       (activity (snd (update 1%nat (closedAt_dto null) stored_db))))
  = Some None.
Proof. reflexivity. Qed.

Example closedAt_kept_example :
  option_map Activity.closedAt
    (find (fun a => Nat.eqb (Activity.id a) 1%nat)
       (activity (snd (update 1%nat (closedAt_dto undefined) stored_db))))
  = Some (Some 500).
Proof. reflexivity. Qed.

Example closedAt_late_example :
  update 1%nat (closedAt_dto (defined 1500)) stored_db
  = (inl (BadRequestException "Closed date must be before start date"), stored_db).
Proof. reflexivity. Qed.

End UpdateClosedAt.

(** ** Running an update twice *)

Lemma update_first_idem {A} (p : A -> bool) (f : A -> A) (l l' : list A) :
  (forall x, p (f x) = p x) ->
  (forall x, f (f x) = f x) ->
  update_first p f l = Some l' ->
  update_first p f l' = Some l'.
Proof.
  intros Hp Hf. revert l'. induction l as [|x l IH]; simpl; intros l';
    [discriminate|].
  destruct (p x) eqn:E.
  - intros H. injection H as <-. simpl. now rewrite Hp, E, Hf.
  - destruct (update_first p f l) as [r|]; simpl; [|discriminate].
    intros H. injection H as <-. simpl. now rewrite E, (IH r eq_refl).
Qed.

Lemma update_first_other {A} (p q : A -> bool) (f g : A -> A) (l l' : list A) :
  (forall x, p x = true -> q x = false) ->
  (forall x, p (g x) = p x) ->
  update_first p f l = Some l ->
  update_first q g l = Some l' ->
  update_first p f l' = Some l'.
Proof.
  intros Hpq Hpg. revert l'. induction l as [|x l IH]; simpl; intros l';
    [discriminate|].
  destruct (p x) eqn:Ep.
  - intros Hfix. injection Hfix as Hfx. rewrite (Hpq x Ep).
    destruct (update_first q g l) as [r|]; simpl; [|discriminate].
    intros H. injection H as <-. simpl. now rewrite Ep, Hfx.
  - destruct (update_first p f l) as [s|] eqn:Es; simpl; [|discriminate].
    intros Hfix. injection Hfix as ->.
    destruct (q x) eqn:Eq.
    + intros H. injection H as <-. simpl. now rewrite Hpg, Ep, Es.
    + destruct (update_first q g l) as [r|]; simpl; [|discriminate].
      intros H. injection H as <-. simpl. now rewrite Ep, (IH r eq_refl eq_refl).
Qed.

Lemma same_key_other (id : Id) (l1 l2 : string) (x : ActivityContent.t) :
  l1 <> l2 -> same_key id l1 x = true -> same_key id l2 x = false.
Proof.
  unfold same_key. intros Hne H. apply andb_true_iff in H. destruct H as [_ H].
  apply String.eqb_eq in H. apply andb_false_iff. right.
  apply String.eqb_neq. congruence.
Qed.

Lemma upsert_row_settled (id : Id) (c : ActivityContentDto.t) (n : Id)
  (rows : list ActivityContent.t) :
  settled id c (upsert_row id c n rows).
Proof.
  unfold settled, upsert_row.
  destruct (update_first (same_key id (ActivityContentDto.lang c)) (set_text c) rows)
    as [l|] eqn:E.
  - apply (update_first_idem _ _ rows l); auto.
  - rewrite (update_first_app_None _ _ _ _ E). simpl.
    unfold same_key at 1. simpl. now rewrite Nat.eqb_refl, String.eqb_refl.
Qed.

Lemma settled_upsert_row (id : Id) (c c' : ActivityContentDto.t) (n : Id)
  (rows : list ActivityContent.t) :
  ActivityContentDto.lang c <> ActivityContentDto.lang c' ->
  settled id c rows ->
  settled id c (upsert_row id c' n rows).
Proof.
  unfold settled, upsert_row. intros Hne Hs.
  destruct (update_first (same_key id (ActivityContentDto.lang c')) (set_text c') rows)
    as [l|] eqn:E.
  - apply (update_first_other _ (same_key id (ActivityContentDto.lang c'))
             _ (set_text c') rows l); auto.
    intros x. now apply same_key_other.
  - now apply update_first_app_Some.
Qed.

Lemma settled_upsert_rows (id : Id) (c : ActivityContentDto.t)
  (cs : list ActivityContentDto.t) (n : Id) (rows : list ActivityContent.t) :
  ~ In (ActivityContentDto.lang c) (map ActivityContentDto.lang cs) ->
  settled id c rows ->
  settled id c (upsert_rows id cs n rows).
Proof.
  revert n rows. induction cs as [|c' cs IH]; simpl; intros n rows Hn Hs;
    [assumption|].
  apply IH; [tauto|]. apply settled_upsert_row; [|assumption].
  intros Heq. apply Hn. left. now symmetry.
Qed.

Lemma upsert_rows_settled (id : Id) (cs : list ActivityContentDto.t) (n : Id)
  (rows : list ActivityContent.t) :
  NoDup (map ActivityContentDto.lang cs) ->
  forall c, In c cs -> settled id c (upsert_rows id cs n rows).
Proof.
  revert n rows. induction cs as [|c' cs IH]; simpl; intros n rows Hnd c Hin;
    [destruct Hin|].
  apply NoDup_cons_iff in Hnd. destruct Hnd as [Hfresh Hnd].
  destruct Hin as [-> | Hin].
  - apply settled_upsert_rows; [assumption | apply upsert_row_settled].
  - now apply IH.
Qed.

Lemma upsert_rows_fixed (id : Id) (cs : list ActivityContentDto.t) (n : Id)
  (rows : list ActivityContent.t) :
  (forall c, In c cs -> settled id c rows) ->
  upsert_rows id cs n rows = rows.
Proof.
  revert n. induction cs as [|c cs IH]; simpl; intros n Hs; [reflexivity|].
  assert (Hrow : upsert_row id c n rows = rows).
  { unfold upsert_row. specialize (Hs c (or_introl eq_refl)).
    unfold settled in Hs. now rewrite Hs. }
  rewrite Hrow. apply IH. auto.
Qed.

(** The upserts of a list without repeated languages are idempotent on
    the content table. *)
Lemma upsert_rows_idem (id : Id) (cs : list ActivityContentDto.t) (n m : Id)
  (rows : list ActivityContent.t) :
  NoDup (map ActivityContentDto.lang cs) ->
  upsert_rows id cs m (upsert_rows id cs n rows) = upsert_rows id cs n rows.
Proof.
  intros Hnd. apply upsert_rows_fixed. intros c Hc.
  now apply upsert_rows_settled.
Qed.

Lemma or_else_idem {A} `{Truthy A} (x : option A) (d : A) :
  or_else x (or_else x d) = or_else x d.
Proof.
  unfold or_else. destruct x as [a|]; [|reflexivity].
  destruct (truthy a); reflexivity.
Qed.

Section UpdateTwice.

Import ActivityService.

Variable dto : UpdateActivityDto.t.

Lemma update_data_idem (a : Activity.t) :
  update_data dto (update_data dto a) = update_data dto a.
Proof.
  unfold update_data. simpl. rewrite !or_else_idem.
  destruct (UpdateActivityDto.closedAt dto); reflexivity.
Qed.

Lemma update_date_check_again (a : Activity.t) :
  update_date_check dto (update_data dto a) = update_date_check dto a.
Proof.
  unfold update_date_check, merged_closedAt. simpl. rewrite !or_else_idem.
  destruct (UpdateActivityDto.closedAt dto); reflexivity.
Qed.

Lemma update_content_check_again (a : Activity.t) :
  update_content_check dto (update_data dto a) = update_content_check dto a.
Proof.
  unfold update_content_check. simpl. now rewrite or_else_idem.
Qed.

Lemma update_slug_check_again (a : Activity.t) (db : Db) :
  update_slug_check dto (update_data dto a) db = inr tt.
Proof.
  unfold update_slug_check. simpl.
  destruct (UpdateActivityDto.slug dto) as [slug|]; [|reflexivity].
  simpl. destruct (truthy slug) eqn:E; [|reflexivity].
  simpl. now rewrite String.eqb_refl.
Qed.

(** A second run after a successful one. *)
Lemma update_again (id : Id) (db db1 : Db) (r : option ActivityWithContents.t) :
  update id dto db = (inr r, db1) ->
  exists db2,
    update id dto db1 = (inr r, db2)
    /\ activityContent db2 = activityContent db1
    /\ activity db2 = activity db1.
Proof.
  intros Hrun.
  destruct (find (fun a => Nat.eqb (Activity.id a) id) (activity db)) as [a|] eqn:Hfind.
  2:{ rewrite (update_not_found id dto db Hfind) in Hrun. discriminate. }
  destruct (update_success id dto db db1 a r Hfind Hrun)
    as [Hdate [Hslug [Hcontent [Hdb1 Hr]]]].
  pose proof (update_written_activity id dto db a Hfind) as Hfind1.
  rewrite <- Hdb1 in Hfind1.
  assert (Hact : activity (update_written id dto db1) = activity db1).
  { unfold update_written.
    rewrite (update_first_fixed _ _ _ _ Hfind1 (update_data_idem a)).
    destruct (UpdateActivityDto.contents dto); reflexivity. }
  assert (Hrows : activityContent (update_written id dto db1) = activityContent db1).
  { unfold update_written.
    rewrite (update_first_fixed _ _ _ _ Hfind1 (update_data_idem a)).
    unfold update_content_check in Hcontent.
    destruct (UpdateActivityDto.contents dto) as [cs|] eqn:Ecs; [|reflexivity].
    apply validateContentLanguages_accepts in Hcontent.
    destruct Hcontent as [_ Hnd].
    simpl. rewrite Hdb1 at 2 3. unfold update_written. rewrite Ecs. simpl.
    now apply upsert_rows_idem. }
  exists (update_written id dto db1).
  rewrite (update_found id dto db1 _ Hfind1).
  rewrite update_date_check_again, Hdate, update_slug_check_again,
    update_content_check_again, Hcontent.
  split; [|split; assumption].
  f_equal. f_equal. rewrite Hr.
  unfold activity_with_contents, contents_of. now rewrite Hact, Hrows.
Qed.

(** A failed [update] writes nothing. *)
Lemma update_failure (id : Id) (db db1 : Db) (e : Exception) :
  update id dto db = (inl e, db1) -> db1 = db.
Proof.
  destruct (find (fun a => Nat.eqb (Activity.id a) id) (activity db)) as [a|] eqn:Hfind.
  - rewrite (update_found id dto db a Hfind).
    destruct (update_date_check dto a) as [e1|[]]; [congruence|].
    destruct (update_slug_check dto a db) as [e2|[]]; [congruence|].
    destruct (update_content_check dto a) as [e3|[]]; [congruence|discriminate].
  - rewrite (update_not_found id dto db Hfind). congruence.
Qed.

(** C9.  For every store, activity identifier and payload, running
    [update] a second time with the same payload ends as the first run
    did (the same activity and contents returned, or the same failure)
    and leaves the content rows, and the activity rows, as the first run
    left them: on the second run the upsert of each content finds the row
    of its language and writes the same title and description, and no row
    is inserted. *)
Theorem update_twice (id : Id) (db : Db) :
  let once := update id dto db in
  let twice := update id dto (snd once) in
  fst twice = fst once
  /\ activityContent (snd twice) = activityContent (snd once)
  /\ activity (snd twice) = activity (snd once).
Proof.
  intros once twice. unfold twice, once.
  destruct (update id dto db) as [[e|r] db1] eqn:Hrun; simpl.
  - assert (Hsame : db1 = db) by (now apply (update_failure id db db1 e)).
    subst db1. rewrite Hrun. simpl. auto.
  - destruct (update_again id db db1 r Hrun) as [db2 [Hrun2 [Hrows Hact]]].
    rewrite Hrun2. simpl. auto.
Qed.

End UpdateTwice.

(** The content rows after one and after two runs of the same update:
    the row of [en-us] is updated, the row of [zh-tw] is inserted once. *)
Example rerun_rows_example :
  let once := ActivityService.update 1%nat contents_dto stored_db in
  let twice := ActivityService.update 1%nat contents_dto (snd once) in
  is_ok (fst once) = true
  /\ map ActivityContent.lang (activityContent (snd once)) = ["en-us"; "zh-tw"]
  /\ map ActivityContent.title (activityContent (snd once))
     = ["Call for proposals"; "CFP"]
  /\ activityContent (snd twice) = activityContent (snd once).
Proof. repeat split. Qed.

(** ** Public lookup by slug *)

Lemma find_by_slug (l : list Activity.t) (a : Activity.t) :
  NoDup (map Activity.slug l) ->
  In a l ->
  find (fun x => String.eqb (Activity.slug x) (Activity.slug a)) l = Some a.
Proof.
  induction l as [|x l IH]; simpl; intros Hnd Hin; [destruct Hin|].
  apply NoDup_cons_iff in Hnd. destruct Hnd as [Hfresh Hnd].
  destruct (String.eqb (Activity.slug x) (Activity.slug a)) eqn:E.
  - destruct Hin as [-> | Hin]; [reflexivity|].
    exfalso. apply Hfresh. apply String.eqb_eq in E. rewrite E.
    now apply in_map.
  - destruct Hin as [-> | Hin]; [|now apply IH].
    rewrite String.eqb_refl in E. discriminate.
Qed.

Lemma filter_map_comm {A B} (f : A -> B) (p : B -> bool) (l : list A) :
  filter p (map f l) = map f (filter (fun x => p (f x)) l).
Proof.
  induction l as [|x l IH]; simpl; [reflexivity|].
  rewrite IH. now destruct (p (f x)).
Qed.

Lemma filter_filter {A} (p q : A -> bool) (l : list A) :
  filter q (filter p l) = filter (fun x => p x && q x) l.
Proof.
  induction l as [|x l IH]; simpl; [reflexivity|].
  destruct (p x); simpl; [|assumption]. rewrite IH. reflexivity.
Qed.

Section FindOneBySlug.

Import ActivityService.

(** What [findOneBySlug] returns for the stored activity [a]. *)
Lemma findOneBySlug_found (lang : option string) (db : Db) (a : Activity.t) :
  NoDup (map Activity.slug (activity db)) ->
  In a (activity db) ->
  findOneBySlug (Activity.slug a) lang db
  = (inr (Some
            {| PublicActivity.slug := Activity.slug a;
               PublicActivity.startAt := Activity.startAt a;
               PublicActivity.endAt := Activity.endAt a;
               PublicActivity.closedAt := Activity.closedAt a;
               PublicActivity.supportedLanguages := Activity.supportedLanguages a;
               PublicActivity.contents :=
                 Some (map select_content
                         (filter
                            (fun c =>
                               where_lang
                                 match lang with
                                 | Some l => if truthy l then Some (toLowerCase l) else None
                                 | None => None
                                 end c
                               && includes (Activity.supportedLanguages a)
                                    (ActivityContent.lang c))
                            (contents_of (Activity.id a) db))) |}), db).
Proof.
  intros Hnd Hin.
  unfold findOneBySlug, activity_findUnique_select, bind, gets.
  rewrite (find_by_slug _ _ Hnd Hin). unfold ret, applySupportedLanguageFilter.
  simpl. rewrite filter_map_comm, filter_filter. reflexivity.
Qed.

(** C2.  When no stored activity has the slug, [findOneBySlug] signals
    not-found.  For a stored activity [a] (slugs being unique in the
    store) it returns the projection of [a]; with a requested language
    [l] the contents are those rows of [a] whose language is the lower
    case of [l] and is supported, so every returned content has that
    language; with no language (an empty [lang] counts as none) the
    contents are exactly the rows of [a] whose language is in the
    current [supportedLanguages] of [a], a row with any other language
    being dropped. *)
Theorem findOneBySlug_contents (slug : string) (lang : option string) (db : Db) :
  (~ slug_taken slug db ->
   findOneBySlug slug lang db = (inl (NotFoundException "Activity not found"), db))
  /\ (forall a,
        NoDup (map Activity.slug (activity db)) ->
        In a (activity db) ->
        Activity.slug a = slug ->
        exists found shown,
          findOneBySlug slug lang db = (inr (Some found), db)
          /\ PublicActivity.slug found = slug
          /\ PublicActivity.supportedLanguages found = Activity.supportedLanguages a
          /\ PublicActivity.contents found = Some shown
          /\ (forall l,
                lang = Some l -> l <> EmptyString ->
                shown
                = map select_content
                    (filter
                       (fun c =>
                          String.eqb (ActivityContent.lang c) (toLowerCase l)
                          && includes (Activity.supportedLanguages a)
                               (ActivityContent.lang c))
                       (contents_of (Activity.id a) db))
                /\ forall pc, In pc shown -> PublicContent.lang pc = toLowerCase l)
          /\ (lang = None \/ lang = Some EmptyString ->
              shown
              = map select_content
                  (filter
                     (fun c => includes (Activity.supportedLanguages a)
                                 (ActivityContent.lang c))
                     (contents_of (Activity.id a) db))
              /\ forall c,
                   In c (contents_of (Activity.id a) db) ->
                   (In (select_content c) shown
                    <-> In (ActivityContent.lang c) (Activity.supportedLanguages a)))).
Proof.
  split.
  - intros Hfree. unfold findOneBySlug, activity_findUnique_select, bind, gets.
    destruct (find (fun a => String.eqb (Activity.slug a) slug) (activity db))
      as [a|] eqn:E; [|reflexivity].
    exfalso. apply Hfree, find_slug_taken. eauto.
  - intros a Hnd Hin <-. eexists. eexists.
    split; [apply (findOneBySlug_found lang db a Hnd Hin)|].
    simpl. split; [reflexivity|]. split; [reflexivity|]. split; [reflexivity|].
    split.
    + intros l -> Hl. destruct l as [|ch l]; [congruence|]. split; [reflexivity|].
      intros pc Hpc. apply in_map_iff in Hpc. destruct Hpc as [c [<- Hc]].
      apply filter_In in Hc. destruct Hc as [_ Hc].
      apply andb_true_iff in Hc. destruct Hc as [Hc _].
      simpl in Hc. simpl. now apply String.eqb_eq.
    + intros Hnone.
      assert (Hshown :
                map select_content
                  (filter
                     (fun c =>
                        where_lang
                          match lang with
                          | Some l => if truthy l then Some (toLowerCase l) else None
                          | None => None
                          end c
                        && includes (Activity.supportedLanguages a)
                             (ActivityContent.lang c))
                     (contents_of (Activity.id a) db))
                = map select_content
                    (filter
                       (fun c => includes (Activity.supportedLanguages a)
                                   (ActivityContent.lang c))
                       (contents_of (Activity.id a) db))).
      { destruct Hnone as [-> | ->]; reflexivity. }
      rewrite Hshown. split; [reflexivity|].
      intros c Hc. split.
      * intros Hin'. apply in_map_iff in Hin'. destruct Hin' as [c' [Heq Hc']].
        apply filter_In in Hc'. destruct Hc' as [_ Hc'].
        apply includes_In in Hc'.
        apply (f_equal PublicContent.lang) in Heq. simpl in Heq.
        now rewrite <- Heq.
      * intros Hsupp. apply includes_In in Hsupp.
        apply in_map, filter_In. auto.
Qed.

Lemma findOneBySlug_contents_witness :
  exists found shown,
    findOneBySlug "jsdc-2025" (Some "EN-US") public_db = (inr (Some found), public_db)
    /\ PublicActivity.contents found = Some shown
    /\ forall pc, In pc shown -> PublicContent.lang pc = "en-us".
Proof.
  destruct (findOneBySlug_contents "jsdc-2025" (Some "EN-US") public_db)
    as [_ Hfound].
  destruct (Hfound stored_activity) as [found [shown [Hrun [_ [_ [Hc [Hlang _]]]]]]].
  - simpl. constructor; [intros [] | constructor].
  - left. reflexivity.
  - reflexivity.
  - exists found, shown. repeat split; try assumption.
    apply (Hlang "EN-US"); [reflexivity | discriminate].
Defined.

Example findOneBySlug_en :
  option_map (fun found => option_map (map PublicContent.lang)
                             (PublicActivity.contents found))
    (match fst (findOneBySlug "jsdc-2025" (Some "EN-US") public_db) with
     | inr found => found
     | inl _ => None
     end)
  = Some (Some ["en-us"]).
Proof. reflexivity. Qed.

Example findOneBySlug_all :
  option_map (fun found => option_map (map PublicContent.lang)
                             (PublicActivity.contents found))
    (match fst (findOneBySlug "jsdc-2025" None public_db) with
     | inr found => found
     | inl _ => None
     end)
  = Some (Some ["en-us"; "zh-tw"]).
Proof. reflexivity. Qed.

Example findOneBySlug_unknown :
  findOneBySlug "jsdc-1999" None public_db
  = (inl (NotFoundException "Activity not found"), public_db).
Proof. reflexivity. Qed.

End FindOneBySlug.

(** ** Login *)

Section Login.

Import AuthService.

Lemma loginWithGithub_catch_throws (error : Exception) (db : Db) :
  loginWithGithub_catch error db
  = (inl (if is_UnauthorizedException error then error
          else UnauthorizedException
                 ("GitHub Authentication Failed: "
                  ++ (if is_Error error then message_of error else "Unknown error"))%string),
     db).
Proof.
  unfold loginWithGithub_catch. destruct (is_UnauthorizedException error); reflexivity.
Qed.

(** C8.  Every failure of [loginWithGithub] is an authentication
    failure.  A failure of the steps of the login that is already an
    authentication failure is thrown again as it is, any other one is
    replaced by an authentication failure that carries its message.  In
    particular a failed token exchange (network or provider error), a
    provider answer that is not [ok], and a profile without a usable
    email all end in an authentication failure, the last one in the
    failure raised for the missing email itself. *)
Theorem loginWithGithub_failure (env : Env.t) (code : string) (db : Db) :
  (forall error,
     fst (loginWithGithub env code db) = inl error ->
     exists message, error = UnauthorizedException message)
  /\ (forall error,
        fst (loginWithGithub_try env code db) = inl error ->
        (forall message,
           error = UnauthorizedException message ->
           fst (loginWithGithub env code db) = inl error)
        /\ (is_UnauthorizedException error = false ->
            fst (loginWithGithub env code db)
            = inl (UnauthorizedException
                     ("GitHub Authentication Failed: "
                      ++ (if is_Error error then message_of error
                          else "Unknown error"))%string)))
  /\ (forall error,
        Env.validateAuthorizationCode env code = inl error ->
        exists message,
          fst (loginWithGithub env code db) = inl (UnauthorizedException message))
  /\ (forall accessToken response,
        Env.validateAuthorizationCode env code = inr accessToken ->
        Env.fetch_user env ("https://api.github.com/" ++ "user")%string
          ("Bearer " ++ accessToken)%string = inr response ->
        Response.ok response = false ->
        fst (loginWithGithub env code db)
        = inl (UnauthorizedException
                 ("GitHub Authentication Failed: "
                  ++ ("GitHub API error: " ++ Response.statusText response))%string))
  /\ (forall accessToken githubUser githubEmails socialAccounts,
        Env.validateAuthorizationCode env code = inr accessToken ->
        fetchGithub (Env.fetch_user env) "user" accessToken = inr githubUser ->
        fetchGithub (Env.fetch_emails env) "user/emails" accessToken = inr githubEmails ->
        fetchGithub (Env.fetch_social env) "user/social_accounts" accessToken
        = inr socialAccounts ->
        truthy (or_ (GithubProfile.email githubUser)
                  (option_map GithubEmail.email
                     (find GithubEmail.primary githubEmails))) = false ->
        fst (loginWithGithub env code db)
        = inl (UnauthorizedException
                 "Unable to obtain a valid email address from GitHub")).
Proof.
  assert (Hcatch : forall error,
             fst (loginWithGithub_try env code db) = inl error ->
             fst (loginWithGithub env code db)
             = inl (if is_UnauthorizedException error then error
                    else UnauthorizedException
                           ("GitHub Authentication Failed: "
                            ++ (if is_Error error then message_of error
                                else "Unknown error"))%string)).
  { intros error Hbody. unfold loginWithGithub, try_catch.
    destruct (loginWithGithub_try env code db) as [[e|t] db'];
      simpl in Hbody; [|discriminate].
    injection Hbody as ->. now rewrite loginWithGithub_catch_throws. }
  split; [|split; [|split; [|split]]].
  - intros error Hfail. unfold loginWithGithub, try_catch in Hfail.
    destruct (loginWithGithub_try env code db) as [[e|t] db'];
      [|discriminate].
    rewrite loginWithGithub_catch_throws in Hfail. simpl in Hfail.
    injection Hfail as <-. destruct e; simpl; eauto.
  - intros error Hbody. split.
    + intros message ->. now rewrite (Hcatch _ Hbody).
    + intros Hother. now rewrite (Hcatch _ Hbody), Hother.
  - intros error Hcode.
    assert (Hbody : fst (loginWithGithub_try env code db) = inl error).
    { unfold loginWithGithub_try, bind at 1. unfold lift at 1. now rewrite Hcode. }
    rewrite (Hcatch _ Hbody). destruct error; simpl; eauto.
  - intros accessToken response Hcode Hfetch Hok.
    assert (Hbody : fst (loginWithGithub_try env code db)
                    = inl (Error ("GitHub API error: "
                                  ++ Response.statusText response)%string)).
    { unfold loginWithGithub_try, bind at 1. unfold lift at 1. rewrite Hcode.
      unfold bind at 1. unfold lift at 1. unfold fetchGithub at 1.
      now rewrite Hfetch, Hok. }
    now rewrite (Hcatch _ Hbody).
  - intros accessToken githubUser githubEmails socialAccounts
      Hcode Huser Hemails Hsocial Hemail.
    assert (Hbody : fst (loginWithGithub_try env code db) = inl missing_email).
    { unfold loginWithGithub_try, bind at 1. unfold lift at 1. rewrite Hcode.
      unfold bind at 1. unfold lift at 1. rewrite Huser.
      unfold bind at 1. unfold lift at 1. rewrite Hemails.
      unfold bind at 1. unfold lift at 1. rewrite Hsocial.
      destruct (or_ (GithubProfile.email githubUser)
                  (option_map GithubEmail.email
                     (find GithubEmail.primary githubEmails))) as [email|];
        [|reflexivity].
      change (truthy email = false) in Hemail. rewrite Hemail. reflexivity. }
    now rewrite (Hcatch _ Hbody).
Qed.

Lemma loginWithGithub_failure_witness :
  fst (loginWithGithub (sample_env (Some "production") None) "4b1ee5" empty_db)
  = inl (UnauthorizedException "Unable to obtain a valid email address from GitHub").
Proof.
  destruct (loginWithGithub_failure (sample_env (Some "production") None)
              "4b1ee5" empty_db) as [_ [_ [_ [_ Hmissing]]]].
  apply (Hmissing "gho_16C7e42F292c6912E7" (sample_profile None)
           [{| GithubEmail.email := "octocat@users.example";
               GithubEmail.primary := false |}] []); reflexivity.
Defined.

(** A login that succeeds: the member is created and the token signed. *)
Example loginWithGithub_new_member :
  let run := loginWithGithub (sample_env (Some "production") (Some "octo@example.org"))
               "4b1ee5" empty_db in
  fst run = inr "jwt.octo@example.org"
  /\ map Member.email (member (snd run)) = ["octo@example.org"]
  /\ map MemberProvider.providerUserId (memberProvider (snd run)) = ["583231"].
Proof. repeat split. Qed.

(** [devLogin] refuses in production mode and writes nothing. *)
Lemma devLogin_production (env : Env.t) (email : string) (db : Db) :
  Env.NODE_ENV env = Some "production" ->
  devLogin env email db
  = (inl (Error "This endpoint is only available in development"), db).
Proof.
  intros Hmode. unfold devLogin, NODE_ENV_is. rewrite Hmode. reflexivity.
Qed.

(** C7.  [devLogin] does not refuse in every execution mode other than
    development: in the mode [test], and with no mode set, it creates
    the member and issues a token.  It refuses in production only (see
    [devLogin_production]), although its own message says that the
    endpoint is only available in development. *)
Theorem devLogin_outside_development :
  (let run := devLogin (sample_env (Some "test") None) "eve@example.org" empty_db in
   Env.NODE_ENV (sample_env (Some "test") None) <> Some "development"
   /\ option_map DevLoginResult.access_token
        (match fst run with inr r => Some r | inl _ => None end)
      = Some "jwt.eve@example.org"
   /\ map Member.email (member (snd run)) = ["eve@example.org"])
  /\ (let run := devLogin (sample_env None None) "eve@example.org" empty_db in
      Env.NODE_ENV (sample_env None None) <> Some "development"
      /\ option_map DevLoginResult.access_token
           (match fst run with inr r => Some r | inl _ => None end)
         = Some "jwt.eve@example.org"
      /\ map Member.email (member (snd run)) = ["eve@example.org"]).
Proof.
  split; (split; [discriminate | split; reflexivity]).
Qed.

End Login.

(** * Further properties of the activity service *)

(** ** What a successful [create] writes *)

Lemma create_run (dto : CreateActivityDto.t) (db : Db) :
  ActivityService.validateDates (CreateActivityDto.startAt dto)
    (CreateActivityDto.endAt dto) (CreateActivityDto.closedAt dto) = inr tt ->
  ~ slug_taken (CreateActivityDto.slug dto) db ->
  ActivityService.validateContentLanguages (CreateActivityDto.contents dto)
    (CreateActivityDto.supportedLanguages dto) = inr tt ->
  ActivityService.create dto db
  = (inr {| ActivityWithContents.activity := created_activity dto db;
            ActivityWithContents.contents := created_rows dto db |},
     created_db dto db).
Proof.
  intros Hd Hfree Hl.
  destruct (checkSlugExists_cases (CreateActivityDto.slug dto) db)
    as [[Ht _] | [_ Hs]]; [contradiction|].
  unfold ActivityService.create.
  unfold bind at 1. unfold lift at 1. rewrite Hd.
  unfold bind at 1. rewrite Hs.
  unfold bind at 1. unfold lift at 1. rewrite Hl.
  unfold bind at 1. rewrite mapM_withId.
  unfold bind at 1. rewrite withId_advance.
  unfold activity_create, bind, modify, ret. rewrite advance_advance.
  reflexivity.
Qed.

Lemma create_success (dto : CreateActivityDto.t) (db db' : Db)
  (r : ActivityWithContents.t) :
  ActivityService.create dto db = (inr r, db') ->
  date_order_ok (CreateActivityDto.startAt dto) (CreateActivityDto.endAt dto)
    (CreateActivityDto.closedAt dto)
  /\ ~ slug_taken (CreateActivityDto.slug dto) db
  /\ ((forall l, In l (map ActivityContentDto.lang (CreateActivityDto.contents dto)) ->
                 In l (CreateActivityDto.supportedLanguages dto))
      /\ NoDup (map ActivityContentDto.lang (CreateActivityDto.contents dto)))
  /\ db' = created_db dto db
  /\ r = {| ActivityWithContents.activity := created_activity dto db;
            ActivityWithContents.contents := created_rows dto db |}.
Proof.
  intros Hrun.
  destruct (create_cases dto db)
    as [[m [Hd Hc]] | [[Hd [Ht Hc]] | [[Hd [Ht [m [Hl Hc]]]] | [Hd [Ht [Hl _]]]]]];
    try (rewrite Hc in Hrun; discriminate).
  rewrite (create_run dto db Hd Ht Hl) in Hrun. injection Hrun as <- <-.
  split; [now apply validateDates_accepts|]. split; [assumption|].
  split; [now apply validateContentLanguages_accepts|]. auto.
Qed.

Lemma create_failure (dto : CreateActivityDto.t) (db db' : Db) (e : Exception) :
  ActivityService.create dto db = (inl e, db') -> db' = db.
Proof.
  intros Hrun.
  destruct (create_cases dto db)
    as [[m [Hd Hc]] | [[Hd [Ht Hc]] | [[Hd [Ht [m [Hl Hc]]]] | [Hd [Ht [Hl [r [d Hc]]]]]]]];
    rewrite Hc in Hrun; congruence.
Qed.

Lemma find_app_last {A} (p : A -> bool) (l : list A) (a : A) :
  (forall x, In x l -> p x = false) ->
  find p (l ++ [a]) = if p a then Some a else None.
Proof.
  induction l as [|x l IH]; simpl; intros Hl; [reflexivity|].
  rewrite (Hl x (or_introl eq_refl)). apply IH. auto.
Qed.

Lemma filter_none {A} (p : A -> bool) (l : list A) :
  (forall x, In x l -> p x = false) -> filter p l = [].
Proof. intros H. now apply filter_nil_iff. Qed.

Lemma filter_all {A} (p : A -> bool) (l : list A) :
  (forall x, In x l -> p x = true) -> filter p l = l.
Proof.
  induction l as [|x l IH]; simpl; intros H; [reflexivity|].
  rewrite (H x (or_introl eq_refl)), IH; auto.
Qed.

Lemma map_snd_combine_seq {A B} (g : A -> B) (n : nat) (l : list A) :
  map (fun ic : nat * A => g (snd ic)) (combine (seq n (List.length l)) l) = map g l.
Proof.
  revert n. induction l as [|x l IH]; intros n; simpl; [reflexivity|].
  now rewrite IH.
Qed.

Lemma created_rows_activityId (dto : CreateActivityDto.t) (db : Db)
  (c : ActivityContent.t) :
  In c (created_rows dto db) ->
  ActivityContent.activityId c = Activity.id (created_activity dto db)
  /\ In (ActivityContent.lang c)
       (map ActivityContentDto.lang (CreateActivityDto.contents dto))
  /\ (nextId db <= ActivityContent.id c
      < List.length (CreateActivityDto.contents dto) + nextId db)%nat.
Proof.
  unfold created_rows. intros Hin. apply in_map_iff in Hin.
  destruct Hin as [[i d] [<- Hin]]. simpl. split; [reflexivity|].
  pose proof (in_combine_l _ _ _ _ Hin) as Hi.
  pose proof (in_combine_r _ _ _ _ Hin) as Hd.
  apply in_seq in Hi. split; [now apply in_map | lia].
Qed.

Lemma created_rows_public (dto : CreateActivityDto.t) (db : Db) :
  map select_content (created_rows dto db)
  = map public_content (CreateActivityDto.contents dto).
Proof.
  unfold created_rows. rewrite map_map.
  apply (map_snd_combine_seq public_content).
Qed.

Lemma contents_of_created (dto : CreateActivityDto.t) (db : Db) :
  fresh_ids db ->
  contents_of (Activity.id (created_activity dto db)) (created_db dto db)
  = created_rows dto db.
Proof.
  intros [_ Hrows]. unfold contents_of, created_db. simpl.
  rewrite filter_app, filter_none, filter_all; [reflexivity| |].
  - intros c Hc. apply created_rows_activityId in Hc. destruct Hc as [-> _].
    simpl. apply Nat.eqb_refl.
  - intros c Hc. rewrite Forall_forall in Hrows. destruct (Hrows c Hc) as [_ Hlt].
    apply Nat.eqb_neq. lia.
Qed.

Section CreateRoundTrip.

Import ActivityService.

(** X1.  After a successful [create] on a store whose identifiers were
    all drawn from the counter, [findOneById] on the identifier of the
    returned activity gives back the returned value, and [findOneBySlug]
    on the slug of the payload, without a language, gives the public
    projection of the payload with all of its contents. *)
Theorem create_then_find (dto : CreateActivityDto.t) (db db' : Db)
  (r : ActivityWithContents.t) :
  fresh_ids db ->
  create dto db = (inr r, db') ->
  findOneById (Activity.id (ActivityWithContents.activity r)) db' = (inr r, db')
  /\ findOneBySlug (CreateActivityDto.slug dto) None db'
     = (inr (Some
               {| PublicActivity.slug := CreateActivityDto.slug dto;
                  PublicActivity.startAt := CreateActivityDto.startAt dto;
                  PublicActivity.endAt := CreateActivityDto.endAt dto;
                  PublicActivity.closedAt := or_null (CreateActivityDto.closedAt dto);
                  PublicActivity.supportedLanguages :=
                    CreateActivityDto.supportedLanguages dto;
                  PublicActivity.contents :=
                    Some (map public_content (CreateActivityDto.contents dto)) |}),
        db').
Proof.
  intros Hfresh Hrun.
  destruct (create_success dto db db' r Hrun) as [_ [Hfree [[Hsupp _] [-> ->]]]].
  pose proof (contents_of_created dto db Hfresh) as Hrows.
  destruct Hfresh as [Hacts _]. rewrite Forall_forall in Hacts.
  split.
  - unfold findOneById, activity_findUnique_id, bind, gets, activity_with_contents.
    cbn [ActivityWithContents.activity].
    assert (Hfind : find (fun a => Nat.eqb (Activity.id a)
                                     (Activity.id (created_activity dto db)))
                      (activity (created_db dto db))
                    = Some (created_activity dto db)).
    { unfold created_db. simpl activity. rewrite find_app_last.
      - now rewrite Nat.eqb_refl.
      - intros a Ha. apply Nat.eqb_neq. specialize (Hacts a Ha). simpl. lia. }
    rewrite Hfind, Hrows. reflexivity.
  - unfold findOneBySlug, activity_findUnique_select, bind, gets.
    assert (Hfind : find (fun a => String.eqb (Activity.slug a)
                                     (CreateActivityDto.slug dto))
                      (activity (created_db dto db))
                    = Some (created_activity dto db)).
    { unfold created_db. simpl activity. rewrite find_app_last.
      - simpl. now rewrite String.eqb_refl.
      - intros a Ha. apply String.eqb_neq. intros Heq. apply Hfree.
        exists a. auto. }
    rewrite Hfind, Hrows. unfold ret, applySupportedLanguageFilter. simpl.
    rewrite (filter_all (where_lang None)) by reflexivity.
    rewrite created_rows_public, filter_all; [reflexivity|].
    intros pc Hpc. apply in_map_iff in Hpc. destruct Hpc as [c [<- Hc]].
    simpl. apply includes_In, Hsupp. now apply in_map.
Qed.

Lemma create_then_find_witness :
  findOneById 5%nat
    (created_db (create_dto "jsdc-2026" 1000 2000 null [content_en; content_zh]) stored_db)
  = (inr {| ActivityWithContents.activity :=
              created_activity
                (create_dto "jsdc-2026" 1000 2000 null [content_en; content_zh]) stored_db;
            ActivityWithContents.contents :=
              created_rows
                (create_dto "jsdc-2026" 1000 2000 null [content_en; content_zh]) stored_db |},
     created_db (create_dto "jsdc-2026" 1000 2000 null [content_en; content_zh]) stored_db).
Proof.
  refine (proj1 (create_then_find
                   (create_dto "jsdc-2026" 1000 2000 null [content_en; content_zh])
                   stored_db
                   (created_db
                      (create_dto "jsdc-2026" 1000 2000 null [content_en; content_zh])
                      stored_db)
                   {| ActivityWithContents.activity :=
                        created_activity
                          (create_dto "jsdc-2026" 1000 2000 null [content_en; content_zh])
                          stored_db;
                      ActivityWithContents.contents :=
                        created_rows
                          (create_dto "jsdc-2026" 1000 2000 null [content_en; content_zh])
                          stored_db |} _ _)).
  - split; repeat constructor.
  - reflexivity.
Defined.

End CreateRoundTrip.

(** ** Invariants kept by [create] and [update] *)

Lemma NoDup_insert {A} (l l' : list A) (a : A) :
  NoDup (l ++ l') -> ~ In a (l ++ l') -> NoDup (l ++ a :: l').
Proof.
  induction l as [|x l IH]; simpl; intros Hnd Hn.
  - now constructor.
  - apply NoDup_cons_iff in Hnd. destruct Hnd as [Hx Hnd].
    constructor.
    + rewrite in_app_iff in *. simpl. intros [H | [H | H]]; subst; tauto.
    + apply IH; tauto.
Qed.

Lemma update_first_split {A} (p : A -> bool) (f : A -> A) (l l' : list A) :
  update_first p f l = Some l' ->
  exists pre x post,
    l = pre ++ x :: post /\ l' = pre ++ f x :: post
    /\ p x = true /\ find p l = Some x.
Proof.
  revert l'. induction l as [|y l IH]; simpl; intros l'; [discriminate|].
  destruct (p y) eqn:E.
  - intros H. injection H as <-. exists [], y, l. auto.
  - destruct (update_first p f l) as [r|]; simpl; [|discriminate].
    intros H. injection H as <-.
    destruct (IH r eq_refl) as [pre [x [post [-> [-> [Hp Hf]]]]]].
    exists (y :: pre), x, post. auto.
Qed.

Lemma update_first_none {A} (p : A -> bool) (f : A -> A) (l : list A) :
  update_first p f l = None -> forall x, In x l -> p x = false.
Proof.
  induction l as [|y l IH]; simpl; [intros _ x []|].
  destruct (p y) eqn:E; [discriminate|].
  destruct (update_first p f l); simpl; [discriminate|].
  intros _ x [<- | Hx]; auto.
Qed.

Lemma update_first_map {A B} (p : A -> bool) (f : A -> A) (g : A -> B)
  (l l' : list A) :
  (forall x, g (f x) = g x) ->
  update_first p f l = Some l' -> map g l' = map g l.
Proof.
  intros Hg Hu. destruct (update_first_split p f l l' Hu)
    as [pre [x [post [-> [-> _]]]]].
  rewrite !map_app. simpl. now rewrite Hg.
Qed.

(** The activity table written by the transaction of [update]. *)
Lemma update_written_split (id : Id) (dto : UpdateActivityDto.t) (db : Db)
  (a : Activity.t) :
  find (fun a => Nat.eqb (Activity.id a) id) (activity db) = Some a ->
  exists pre post,
    activity db = pre ++ a :: post
    /\ activity (update_written id dto db)
       = pre ++ ActivityService.update_data dto a :: post.
Proof.
  intros Hfind.
  assert (Hid : Nat.eqb (Activity.id a) id = true).
  { apply find_some in Hfind. tauto. }
  destruct (update_first_found (fun a => Nat.eqb (Activity.id a) id)
              (ActivityService.update_data dto) (activity db) a Hfind Hid)
    as [l' [Hupd _]].
  destruct (update_first_split _ _ _ _ Hupd) as [pre [x [post [Hl [Hl' [_ Hx]]]]]].
  assert (x = a) by congruence. subst x.
  exists pre, post. split; [assumption|].
  unfold update_written. rewrite Hupd.
  destruct (UpdateActivityDto.contents dto); exact Hl'.
Qed.

(** The slug written by an [update] that passed the slug check. *)
Lemma update_slug_check_passed (dto : UpdateActivityDto.t) (a : Activity.t) (db : Db) :
  update_slug_check dto a db = inr tt ->
  Activity.slug (ActivityService.update_data dto a) = Activity.slug a
  \/ ~ slug_taken (Activity.slug (ActivityService.update_data dto a)) db.
Proof.
  unfold update_slug_check. simpl. unfold or_else.
  destruct (UpdateActivityDto.slug dto) as [slug|]; [|auto].
  destruct (truthy slug); [|auto]. simpl.
  destruct (String.eqb slug (Activity.slug a)) eqn:E; simpl.
  - apply String.eqb_eq in E. auto.
  - intros Hcheck. right.
    destruct (checkSlugExists_cases slug db) as [[_ H] | [H _]];
      [rewrite H in Hcheck; discriminate | assumption].
Qed.

(** The dates written by an [update] that passed the date check. *)
Lemma update_date_check_passed (dto : UpdateActivityDto.t) (a : Activity.t) :
  update_date_check dto a = inr tt ->
  dates_ordered a ->
  dates_ordered (ActivityService.update_data dto a).
Proof.
  unfold update_date_check, dates_ordered, ActivityService.merged_closedAt. simpl.
  destruct (UpdateActivityDto.closedAt dto) as [| |d] eqn:Ec.
  - destruct (UpdateActivityDto.startAt dto) as [s|];
      destruct (UpdateActivityDto.endAt dto) as [e|]; simpl;
      try (intros H _; now apply validateDates_accepts in H).
    auto.
  - rewrite orb_true_r. intros H _. now apply validateDates_accepts in H.
  - rewrite orb_true_r. intros H _. now apply validateDates_accepts in H.
Qed.

Section Invariants.

Import ActivityService.

(** X2.  Slugs stay unique: if no two stored activities share a slug,
    the same holds of the store left by [create] and of the store left by
    [update], whatever the payload and whether the call succeeds or
    fails. *)
Theorem unique_slugs_kept (db : Db) :
  unique_slugs db ->
  (forall dto, unique_slugs (snd (create dto db)))
  /\ (forall id dto, unique_slugs (snd (update id dto db))).
Proof.
  intros Huniq. split.
  - intros dto. destruct (create dto db) as [[e|r] db'] eqn:Hrun; simpl.
    + now rewrite (create_failure dto db db' e Hrun).
    + destruct (create_success dto db db' r Hrun) as [_ [Hfree [_ [-> _]]]].
      unfold unique_slugs, created_db. simpl activity.
      rewrite map_app. simpl. apply NoDup_insert; rewrite app_nil_r;
        [exact Huniq|].
      intros Hin. apply in_map_iff in Hin. destruct Hin as [a [Hs Ha]].
      apply Hfree. exists a. auto.
  - intros id dto. destruct (update id dto db) as [[e|r] db'] eqn:Hrun; simpl.
    + now rewrite (update_failure dto id db db' e Hrun).
    + destruct (find (fun a => Nat.eqb (Activity.id a) id) (activity db))
        as [a|] eqn:Hfind.
      2:{ rewrite (update_not_found id dto db Hfind) in Hrun. discriminate. }
      destruct (update_success id dto db db' a r Hfind Hrun)
        as [_ [Hslug [_ [-> _]]]].
      destruct (update_written_split id dto db a Hfind) as [pre [post [Hl Hl']]].
      unfold unique_slugs in *. rewrite Hl'. rewrite Hl in Huniq.
      rewrite map_app, map_cons. rewrite map_app, map_cons in Huniq.
      destruct (update_slug_check_passed dto a db Hslug) as [Hsame | Hfree].
      * now rewrite Hsame.
      * apply NoDup_insert; [now apply NoDup_remove_1 in Huniq|].
        intros Hin. apply Hfree. unfold slug_taken. rewrite Hl.
        rewrite <- map_app in Hin. apply in_map_iff in Hin.
        destruct Hin as [b [Hs Hb]]. exists b. split; [|assumption].
        rewrite in_app_iff in *. simpl. tauto.
Qed.

Lemma unique_slugs_kept_witness :
  unique_slugs
    (snd (update 1%nat contents_dto stored_db)).
Proof.
  apply (unique_slugs_kept stored_db).
  unfold unique_slugs. simpl. constructor; [intros [] | constructor].
Defined.

(** X3.  The order of dates is kept: if every stored activity ends
    strictly after it starts and closes, when it closes at all, strictly
    before it starts, the same holds of every activity of the store left
    by [create] and by [update]. *)
Theorem dates_ordered_kept (db : Db) :
  all_dates_ordered db ->
  (forall dto, all_dates_ordered (snd (create dto db)))
  /\ (forall id dto, all_dates_ordered (snd (update id dto db))).
Proof.
  intros Hall. split.
  - intros dto. destruct (create dto db) as [[e|r] db'] eqn:Hrun; simpl.
    + now rewrite (create_failure dto db db' e Hrun).
    + destruct (create_success dto db db' r Hrun) as [Hdates [_ [_ [-> _]]]].
      unfold all_dates_ordered, created_db. simpl activity.
      apply Forall_app. split; [assumption|]. constructor; [|constructor].
      unfold dates_ordered, date_order_ok in *. simpl.
      destruct (CreateActivityDto.closedAt dto); simpl; tauto.
  - intros id dto. destruct (update id dto db) as [[e|r] db'] eqn:Hrun; simpl.
    + now rewrite (update_failure dto id db db' e Hrun).
    + destruct (find (fun a => Nat.eqb (Activity.id a) id) (activity db))
        as [a|] eqn:Hfind.
      2:{ rewrite (update_not_found id dto db Hfind) in Hrun. discriminate. }
      destruct (update_success id dto db db' a r Hfind Hrun)
        as [Hdate [_ [_ [-> _]]]].
      destruct (update_written_split id dto db a Hfind) as [pre [post [Hl Hl']]].
      unfold all_dates_ordered in *. rewrite Hl'. rewrite Hl in Hall.
      apply Forall_app in Hall. destruct Hall as [Hpre Hrest].
      apply Forall_cons_iff in Hrest. destruct Hrest as [Ha Hpost].
      apply Forall_app. split; [assumption|]. constructor; [|assumption].
      now apply update_date_check_passed.
Qed.

Lemma dates_ordered_kept_witness :
  all_dates_ordered (snd (update 1%nat contents_dto stored_db)).
Proof.
  apply (dates_ordered_kept stored_db).
  constructor; [|constructor]. unfold dates_ordered, date_order_ok. simpl. lia.
Defined.

End Invariants.

Lemma NoDup_map_injective {A B} (f : A -> B) (l : list A) :
  (forall x y, f x = f y -> x = y) -> NoDup l -> NoDup (map f l).
Proof.
  intros Hinj. induction 1 as [|x l Hx Hnd IH]; simpl; constructor; [|assumption].
  intros Hin. apply in_map_iff in Hin. destruct Hin as [y [Hy Hin]].
  apply Hinj in Hy. now subst.
Qed.

Lemma map_fst_combine_seq {A} (n : nat) (l : list A) :
  map fst (combine (seq n (List.length l)) l) = seq n (List.length l).
Proof.
  revert n. induction l as [|x l IH]; intros n; simpl; [reflexivity|].
  now rewrite IH.
Qed.

Lemma same_key_content_key (id : Id) (lang : string) (c : ActivityContent.t) :
  same_key id lang c = true <-> content_key c = (id, lang).
Proof.
  unfold same_key, content_key. rewrite andb_true_iff, Nat.eqb_eq, String.eqb_eq.
  split; [intros [-> ->]; reflexivity | intros H; injection H; auto].
Qed.

Lemma table_keyed_weaken (n m : Id) (rows : list ActivityContent.t) :
  (n <= m)%nat -> table_keyed n rows -> table_keyed m rows.
Proof.
  intros Hle [Hb Hk]. split; [|assumption].
  eapply Forall_impl; [|exact Hb]. simpl. intros c [? ?]. lia.
Qed.

Lemma upsert_row_keyed (id : Id) (c : ActivityContentDto.t) (n : Id)
  (rows : list ActivityContent.t) :
  (id < n)%nat ->
  table_keyed n rows ->
  table_keyed (S n) (upsert_row id c n rows).
Proof.
  intros Hid Hk. unfold upsert_row.
  destruct (update_first (same_key id (ActivityContentDto.lang c)) (set_text c) rows)
    as [l|] eqn:E.
  - apply (table_keyed_weaken n); [lia|].
    destruct Hk as [Hb [Hids Hkeys]]. split; [|split].
    + destruct (update_first_split _ _ _ _ E) as [pre [x [post [-> [-> _]]]]].
      apply Forall_app in Hb. destruct Hb as [Hpre Hrest].
      apply Forall_cons_iff in Hrest. destruct Hrest as [Hx Hpost].
      apply Forall_app. split; [assumption|]. constructor; assumption.
    + now rewrite (update_first_map _ (set_text c) ActivityContent.id rows l
                     (fun _ => eq_refl) E).
    + now rewrite (update_first_map _ (set_text c) content_key rows l
                     (fun _ => eq_refl) E).
  - destruct Hk as [Hb [Hids Hkeys]]. rewrite Forall_forall in Hb.
    split; [|split].
    + apply Forall_app. split.
      * apply Forall_forall. intros x Hx. specialize (Hb x Hx). lia.
      * constructor; [simpl; lia | constructor].
    + rewrite map_app. simpl. apply NoDup_insert; rewrite app_nil_r; [assumption|].
      intros Hin. apply in_map_iff in Hin. destruct Hin as [x [Hx Hin]].
      specialize (Hb x Hin). lia.
    + rewrite map_app. simpl. apply NoDup_insert; rewrite app_nil_r; [assumption|].
      intros Hin. apply in_map_iff in Hin. destruct Hin as [x [Hx Hin]].
      pose proof (update_first_none _ _ _ E x Hin) as Hfalse.
      change (content_key x = (id, ActivityContentDto.lang c)) in Hx.
      apply same_key_content_key in Hx. congruence.
Qed.

Lemma upsert_rows_keyed (id : Id) (cs : list ActivityContentDto.t) (n : Id)
  (rows : list ActivityContent.t) :
  (id < n)%nat ->
  table_keyed n rows ->
  table_keyed (List.length cs + n)%nat (upsert_rows id cs n rows).
Proof.
  revert n rows. induction cs as [|c cs IH]; intros n rows Hid Hk; simpl;
    [assumption|].
  replace (S (List.length cs + n))%nat with (List.length cs + S n)%nat by lia.
  apply IH; [lia|]. now apply upsert_row_keyed.
Qed.

Section Keys.

Import ActivityService.

Lemma create_well_keyed (dto : CreateActivityDto.t) (db : Db) :
  NoDup (map ActivityContentDto.lang (CreateActivityDto.contents dto)) ->
  well_keyed db -> well_keyed (created_db dto db).
Proof.
  intros Hlangs [[Hacts Hrows] [Hids [Hcids Hkeys]]].
  rewrite Forall_forall in Hacts, Hrows.
  assert (Hnew : forall c, In c (created_rows dto db) ->
                   ActivityContent.activityId c
                   = (List.length (CreateActivityDto.contents dto) + nextId db)%nat
                   /\ (nextId db <= ActivityContent.id c
                       < List.length (CreateActivityDto.contents dto) + nextId db)%nat).
  { intros c Hc. apply created_rows_activityId in Hc. simpl in Hc. tauto. }
  split; [split|split; [|split]].
  - unfold created_db. simpl. apply Forall_app. split.
    + apply Forall_forall. intros a Ha. specialize (Hacts a Ha). lia.
    + constructor; [simpl; lia | constructor].
  - unfold created_db. simpl. apply Forall_app. split.
    + apply Forall_forall. intros c Hc. specialize (Hrows c Hc). lia.
    + apply Forall_forall. intros c Hc. specialize (Hnew c Hc). lia.
  - unfold created_db. simpl activity. rewrite map_app. simpl.
    apply NoDup_insert; rewrite app_nil_r; [assumption|].
    intros Hin. apply in_map_iff in Hin. destruct Hin as [a [Ha Hin]].
    specialize (Hacts a Hin). lia.
  - unfold created_db. simpl activityContent. rewrite map_app.
    apply NoDup_app; [assumption| |].
    + unfold created_rows. rewrite map_map. simpl.
      change (fun x : nat * ActivityContentDto.t => fst x) with (@fst nat ActivityContentDto.t).
      rewrite map_fst_combine_seq. apply seq_NoDup.
    + intros i Hold Hnew'. apply in_map_iff in Hold. destruct Hold as [c [<- Hc]].
      apply in_map_iff in Hnew'. destruct Hnew' as [c' [Heq Hc']].
      specialize (Hrows c Hc). specialize (Hnew c' Hc'). lia.
  - unfold unique_content_keys, created_db. simpl activityContent. rewrite map_app.
    apply NoDup_app; [assumption| |].
    + unfold created_rows. rewrite map_map. unfold content_key. simpl.
      rewrite (map_snd_combine_seq
                 (fun c => ((List.length (CreateActivityDto.contents dto) + nextId db)%nat,
                            ActivityContentDto.lang c))).
      rewrite <- (map_map ActivityContentDto.lang
                    (pair (List.length (CreateActivityDto.contents dto) + nextId db)%nat)).
      apply NoDup_map_injective; [|assumption]. intros x y H. now injection H.
    + intros k Hold Hnew'. apply in_map_iff in Hold. destruct Hold as [c [<- Hc]].
      apply in_map_iff in Hnew'. destruct Hnew' as [c' [Heq Hc']].
      specialize (Hrows c Hc). specialize (Hnew c' Hc').
      unfold content_key in Heq. injection Heq as Ha _. lia.
Qed.

Lemma update_well_keyed (id : Id) (dto : UpdateActivityDto.t) (db : Db)
  (a : Activity.t) :
  find (fun a => Nat.eqb (Activity.id a) id) (activity db) = Some a ->
  well_keyed db -> well_keyed (update_written id dto db).
Proof.
  intros Hfind [[Hacts Hrows] [Hids [Hcids Hkeys]]].
  destruct (update_written_split id dto db a Hfind) as [pre [post [Hl Hl']]].
  assert (Hmap : map Activity.id (activity (update_written id dto db))
                 = map Activity.id (activity db)).
  { rewrite Hl', Hl, !map_app. reflexivity. }
  assert (Hid : (id < nextId db)%nat).
  { rewrite Forall_forall in Hacts. pose proof (find_some _ _ Hfind) as [Hin Heq].
    apply Nat.eqb_eq in Heq. specialize (Hacts a Hin). lia. }
  assert (Hbound : forall n, (nextId db <= n)%nat ->
                     Forall (fun a => (Activity.id a < n)%nat)
                       (activity (update_written id dto db))).
  { intros n Hn. rewrite Forall_forall in *. intros b Hb.
    assert (Hb' : In (Activity.id b) (map Activity.id (activity db)))
      by (rewrite <- Hmap; now apply in_map).
    apply in_map_iff in Hb'. destruct Hb' as [b0 [Heq Hb0]].
    specialize (Hacts b0 Hb0). lia. }
  unfold well_keyed, fresh_ids, unique_content_keys. rewrite Hmap.
  unfold update_written in *.
  destruct (UpdateActivityDto.contents dto) as [cs|].
  - destruct (upsert_rows_keyed id cs (nextId db) (activityContent db) Hid)
      as [Hb [Hi Hk]]; [repeat split; assumption|].
    simpl. repeat split; try assumption. apply Hbound. lia.
  - simpl. repeat split; try assumption. apply Hbound. lia.
Qed.

(** X4.  The keys of the activity tables are kept by [create] and
    [update]: when every identifier of the store was drawn from the
    counter, no two activities and no two content rows share an
    identifier, and no two content rows share activity and language,
    the same holds of the store left by either call.  In particular an
    update never leaves two content rows for one language of one
    activity. *)
Theorem well_keyed_kept (db : Db) :
  well_keyed db ->
  (forall dto, well_keyed (snd (create dto db)))
  /\ (forall id dto, well_keyed (snd (update id dto db))).
Proof.
  intros Hk. split.
  - intros dto. destruct (create dto db) as [[e|r] db'] eqn:Hrun; simpl.
    + now rewrite (create_failure dto db db' e Hrun).
    + destruct (create_success dto db db' r Hrun) as [_ [_ [[_ Hnd] [-> _]]]].
      now apply create_well_keyed.
  - intros id dto. destruct (update id dto db) as [[e|r] db'] eqn:Hrun; simpl.
    + now rewrite (update_failure dto id db db' e Hrun).
    + destruct (find (fun a => Nat.eqb (Activity.id a) id) (activity db))
        as [a|] eqn:Hfind.
      2:{ rewrite (update_not_found id dto db Hfind) in Hrun. discriminate. }
      destruct (update_success id dto db db' a r Hfind Hrun) as [_ [_ [_ [-> _]]]].
      now apply (update_well_keyed id dto db a).
Qed.

Lemma well_keyed_kept_witness :
  well_keyed (snd (update 1%nat contents_dto stored_db)).
Proof.
  apply (well_keyed_kept stored_db).
  repeat split; simpl; repeat constructor; simpl; try tauto.
Defined.

End Keys.

(** ** What the upserts of [update] do to the content table *)








Section UpdateContents.

Import ActivityService.



End UpdateContents.

(** ** Outcomes of [update] *)


Lemma update_date_check_rejects (dto : UpdateActivityDto.t) (a : Activity.t) :
  update_date_check dto a = inr tt
  \/ exists message, update_date_check dto a = inl (BadRequestException message).
Proof.
  unfold update_date_check.
  destruct (truthy (UpdateActivityDto.startAt dto)
            || truthy (UpdateActivityDto.endAt dto)
            || match UpdateActivityDto.closedAt dto with
               | undefined => false
               | _ => true
               end); [apply validateDates_rejects | auto].
Qed.

Lemma update_content_check_rejects (dto : UpdateActivityDto.t) (a : Activity.t) :
  update_content_check dto a = inr tt
  \/ exists message, update_content_check dto a = inl (BadRequestException message).
Proof.
  unfold update_content_check.
  destruct (UpdateActivityDto.contents dto);
    [apply validateContentLanguages_rejects | auto].
Qed.

(** The slug check of [update] fails only for a new, non-empty slug that
    is taken. *)
Lemma update_slug_check_cases (dto : UpdateActivityDto.t) (a : Activity.t) (db : Db) :
  (update_slug_check dto a db = inr tt
   /\ (forall slug,
         UpdateActivityDto.slug dto = Some slug ->
         slug = EmptyString \/ slug = Activity.slug a \/ ~ slug_taken slug db))
  \/ (exists slug,
        UpdateActivityDto.slug dto = Some slug
        /\ slug <> EmptyString /\ slug <> Activity.slug a /\ slug_taken slug db
        /\ update_slug_check dto a db
           = inl (ConflictException
                    ("Activity with slug " ++ ActivityService.dquote ++ slug
                     ++ ActivityService.dquote ++ " already exists")%string)).
Proof.
  unfold update_slug_check.
  destruct (UpdateActivityDto.slug dto) as [slug|];
    [|left; split; [reflexivity | discriminate]].
  destruct slug as [|ch rest].
  { left. split; [reflexivity|]. intros s Hs. injection Hs as <-. auto. }
  assert (Hne : String ch rest <> EmptyString) by discriminate.
  change (truthy (String ch rest)) with true. rewrite andb_true_l.
  remember (String ch rest) as slug eqn:Eslug. clear Eslug.
  destruct (String.eqb slug (Activity.slug a)) eqn:E.
  - apply String.eqb_eq in E. left. split; [reflexivity|].
    intros s Hs. injection Hs as <-. auto.
  - apply String.eqb_neq in E. cbn [negb].
    destruct (checkSlugExists_cases slug db) as [[Ht H] | [Ht H]];
      rewrite H; cbn [fst].
    + right. exists slug. repeat split; assumption.
    + left. split; [reflexivity|]. intros s Hs. injection Hs as <-. auto.
Qed.

Section UpdateOutcomes.

Import ActivityService.



(** X7.  The slug of an [update] payload.  A payload whose slug is
    missing, empty, or the current slug of the activity never ends in a
    conflict failure.  A payload with another, non-empty slug that
    belongs to a stored activity never succeeds: it ends in the conflict
    failure for that slug, unless the date check, which runs first,
    rejects it with a validation failure.  The store is unchanged either
    way. *)
Theorem update_slug_rule (id : Id) (dto : UpdateActivityDto.t) (db : Db)
  (a : Activity.t) :
  find (fun a => Nat.eqb (Activity.id a) id) (activity db) = Some a ->
  (UpdateActivityDto.slug dto = None
   \/ UpdateActivityDto.slug dto = Some EmptyString
   \/ UpdateActivityDto.slug dto = Some (Activity.slug a) ->
   forall message, fst (update id dto db) <> inl (ConflictException message))
  /\ (forall slug,
        UpdateActivityDto.slug dto = Some slug ->
        slug <> EmptyString ->
        slug <> Activity.slug a ->
        slug_taken slug db ->
        update id dto db
        = (inl (ConflictException
                  ("Activity with slug " ++ dquote ++ slug ++ dquote
                   ++ " already exists")%string), db)
        \/ exists message,
             update id dto db = (inl (BadRequestException message), db)).
Proof.
  intros Hfind. rewrite (update_found id dto db a Hfind). split.
  - intros Hslug message.
    destruct (update_date_check_rejects dto a) as [Hd | [m Hd]]; rewrite Hd;
      [|discriminate].
    destruct (update_slug_check_cases dto a db)
      as [[Hs _] | [slug [Hsome [Hne [Hother _]]]]].
    + rewrite Hs.
      destruct (update_content_check_rejects dto a) as [Hc | [m Hc]]; rewrite Hc;
        discriminate.
    + exfalso. destruct Hslug as [H | [H | H]]; congruence.
  - intros slug Hsome Hne Hother Htaken.
    destruct (update_date_check_rejects dto a) as [Hd | [m Hd]]; rewrite Hd;
      [|eauto].
    destruct (update_slug_check_cases dto a db)
      as [[_ Hfree] | [slug' [Hsome' [_ [_ [_ Hs]]]]]].
    + exfalso. destruct (Hfree slug Hsome) as [H | [H | H]]; contradiction.
    + rewrite Hs. left. congruence.
Qed.

Lemma update_slug_rule_witness :
  update 1%nat contents_dto taipei_db
  = (inl (ConflictException
            ("Activity with slug " ++ dquote ++ "jsdc-taipei" ++ dquote
             ++ " already exists")%string), taipei_db)
  \/ exists message,
       update 1%nat contents_dto taipei_db = (inl (BadRequestException message), taipei_db).
Proof.
  apply (update_slug_rule 1%nat contents_dto taipei_db stored_activity eq_refl).
  - reflexivity.
  - discriminate.
  - discriminate.
  - eexists. split; [right; left; reflexivity | reflexivity].
Defined.

(** X8.  A successful [update] returns the refreshed activity, the value
    [findOneById] gives on the resulting store.  The identifier of the
    activity is kept; a name or slug that is missing or empty in the
    payload, a date or language list that is missing, keeps the stored
    value, and a supplied one (an empty language list included) is
    stored.  The other activities of the store are unchanged and none
    is added. *)
Theorem update_returns_refreshed (id : Id) (dto : UpdateActivityDto.t) (db db' : Db)
  (a : Activity.t) (r : option ActivityWithContents.t) :
  find (fun a => Nat.eqb (Activity.id a) id) (activity db) = Some a ->
  update id dto db = (inr r, db') ->
  exists x,
    r = Some x
    /\ findOneById id db' = (inr x, db')
    /\ Activity.id (ActivityWithContents.activity x) = Activity.id a
    /\ Activity.name (ActivityWithContents.activity x)
       = match UpdateActivityDto.name dto with
         | Some (String c s) => String c s
         | _ => Activity.name a
         end
    /\ Activity.slug (ActivityWithContents.activity x)
       = match UpdateActivityDto.slug dto with
         | Some (String c s) => String c s
         | _ => Activity.slug a
         end
    /\ Activity.startAt (ActivityWithContents.activity x)
       = match UpdateActivityDto.startAt dto with
         | Some d => d
         | None => Activity.startAt a
         end
    /\ Activity.endAt (ActivityWithContents.activity x)
       = match UpdateActivityDto.endAt dto with
         | Some d => d
         | None => Activity.endAt a
         end
    /\ Activity.supportedLanguages (ActivityWithContents.activity x)
       = match UpdateActivityDto.supportedLanguages dto with
         | Some l => l
         | None => Activity.supportedLanguages a
         end
    /\ (forall b, In b (activity db) -> Activity.id b <> id -> In b (activity db'))
    /\ List.length (activity db') = List.length (activity db).
Proof.
  intros Hfind Hrun.
  destruct (update_success id dto db db' a r Hfind Hrun) as [_ [_ [_ [-> ->]]]].
  pose proof (update_written_activity id dto db a Hfind) as Hfind'.
  destruct (update_written_split id dto db a Hfind) as [pre [post [Hl Hl']]].
  unfold activity_with_contents at 1. rewrite Hfind'. eexists.
  split; [reflexivity|]. split.
  { unfold findOneById, activity_findUnique_id, bind, gets, activity_with_contents.
    rewrite Hfind'. reflexivity. }
  cbn [ActivityWithContents.activity]. unfold update_data.
  cbn [Activity.id Activity.name Activity.slug Activity.startAt Activity.endAt
       Activity.supportedLanguages].
  split; [reflexivity|]. split; [|split; [|split; [|split; [|split; [|split]]]]].
  - unfold or_else. destruct (UpdateActivityDto.name dto) as [[|c s]|]; reflexivity.
  - unfold or_else. destruct (UpdateActivityDto.slug dto) as [[|c s]|]; reflexivity.
  - unfold or_else. destruct (UpdateActivityDto.startAt dto); reflexivity.
  - unfold or_else. destruct (UpdateActivityDto.endAt dto); reflexivity.
  - unfold or_else. destruct (UpdateActivityDto.supportedLanguages dto); reflexivity.
  - intros b Hb Hne. rewrite Hl', in_app_iff. rewrite Hl, in_app_iff in Hb.
    simpl in *. destruct Hb as [Hb | [Hb | Hb]]; auto.
    subst b. apply find_some in Hfind. destruct Hfind as [_ Hid].
    apply Nat.eqb_eq in Hid. contradiction.
  - rewrite Hl', Hl, !length_app. reflexivity.
Qed.

Lemma update_returns_refreshed_witness :
  exists x,
    findOneById 1%nat (update_written 1%nat contents_dto stored_db)
    = (inr x, update_written 1%nat contents_dto stored_db)
    /\ Activity.slug (ActivityWithContents.activity x) = "jsdc-taipei".
Proof.
  destruct (update_returns_refreshed 1%nat contents_dto stored_db
              (update_written 1%nat contents_dto stored_db) stored_activity
              (activity_with_contents 1%nat (update_written 1%nat contents_dto stored_db))
              eq_refl eq_refl)
    as [x [_ [Hfind [_ [_ [Hslug _]]]]]].
  exists x. split; [exact Hfind | exact Hslug].
Defined.

End UpdateOutcomes.

(** ** The requested language of the public lookup *)




Section RequestedLanguage.

Import ActivityService.



End RequestedLanguage.

(** ** How often a language is named in a rejection *)

Lemma includes_snoc (s : list string) (y x : string) :
  includes (s ++ [y]) x = includes s x || String.eqb x y.
Proof.
  unfold includes. rewrite existsb_app. simpl. now rewrite orb_false_r.
Qed.

Lemma later_dups_count (l seen : list string) (x : string) :
  count_occ string_dec (later_dups seen l) x
  = if includes seen x then count_occ string_dec l x
    else Nat.pred (count_occ string_dec l x).
Proof.
  revert seen. induction l as [|y l IH]; intros seen; simpl.
  - now destruct (includes seen x).
  - assert (Hnext : count_occ string_dec (later_dups (seen ++ [y]) l) x
                    = if includes seen x || String.eqb x y
                      then count_occ string_dec l x
                      else Nat.pred (count_occ string_dec l x)).
    { now rewrite IH, includes_snoc. }
    destruct (string_dec y x) as [-> | Hne].
    + rewrite String.eqb_refl, orb_true_r in Hnext.
      destruct (includes seen x) eqn:E; simpl.
      * destruct (string_dec x x); [|contradiction]. now rewrite Hnext.
      * exact Hnext.
    + assert (Hxy : String.eqb x y = false) by (apply String.eqb_neq; congruence).
      rewrite Hxy, orb_false_r in Hnext.
      destruct (includes seen y) eqn:E; simpl.
      * destruct (string_dec y x); [contradiction|]. exact Hnext.
      * exact Hnext.
Qed.

Lemma filter_count_occ (p : string -> bool) (l : list string) (x : string) :
  count_occ string_dec (filter p l) x
  = if p x then count_occ string_dec l x else 0%nat.
Proof.
  induction l as [|y l IH]; simpl; [now destruct (p x)|].
  destruct (string_dec y x) as [-> | Hne].
  - destruct (p x) eqn:E; simpl.
    + destruct (string_dec x x); [|contradiction]. now rewrite IH.
    + exact IH.
  - destruct (p y); simpl; [destruct (string_dec y x); [contradiction|]|];
      exact IH.
Qed.

Section RejectionNames.

Import ActivityService.

(** X10.  The languages named in a rejection of
    [validateContentLanguages] are named as often as they offend.  When
    some language is unsupported, the message lists the unsupported
    languages in the order of the contents, each once per content that
    uses it and no supported one.  When all are supported and some
    language is repeated, the message lists each language once per
    content that repeats it: one time less than it occurs. *)
Theorem validateContentLanguages_named (contents : list ActivityContentDto.t)
  (supportedLanguages : list string) :
  let langs := map ActivityContentDto.lang contents in
  ((exists l, In l langs /\ ~ In l supportedLanguages) ->
   exists named,
     validateContentLanguages contents supportedLanguages
     = inl (BadRequestException
              ("Contents contain unsupported languages: " ++ join ", " named)%string)
     /\ named = filter (fun l => negb (includes supportedLanguages l)) langs
     /\ forall l,
          count_occ string_dec named l
          = if includes supportedLanguages l then 0%nat
            else count_occ string_dec langs l)
  /\ ((forall l, In l langs -> In l supportedLanguages) ->
      ~ NoDup langs ->
      exists named,
        validateContentLanguages contents supportedLanguages
        = inl (BadRequestException
                 ("Duplicate languages in contents: " ++ join ", " named)%string)
        /\ forall l,
             count_occ string_dec named l = Nat.pred (count_occ string_dec langs l)).
Proof.
  intros langs.
  pose proof (validateContentLanguages_cases contents supportedLanguages) as Hcases.
  fold langs in Hcases. split.
  - intros [l [Hl Hn]].
    assert (Hin : In l (unsupportedLangs_of langs supportedLanguages)).
    { apply unsupportedLangs_In. auto. }
    destruct (unsupportedLangs_of langs supportedLanguages) as [|u us] eqn:Eu;
      [destruct Hin|].
    exists (u :: us). split; [exact Hcases|]. rewrite <- Eu.
    split; [reflexivity|]. intros x. unfold unsupportedLangs_of.
    rewrite filter_count_occ. now destruct (includes supportedLanguages x).
  - intros Hall Hdup.
    assert (Hnil : unsupportedLangs_of langs supportedLanguages = []).
    { now apply unsupportedLangs_nil. }
    rewrite Hnil in Hcases.
    destruct (duplicateLangs_of langs) as [|d ds] eqn:Ed.
    + exfalso. apply Hdup. now apply duplicateLangs_nil.
    + exists (d :: ds). split; [exact Hcases|]. rewrite <- Ed. intros x.
      rewrite duplicateLangs_later_dups. apply (later_dups_count langs [] x).
Qed.

Lemma validateContentLanguages_named_witness :
  exists named,
    validateContentLanguages [content_en; content_zh; content_en; content_en]
      ["en-us"; "zh-tw"]
    = inl (BadRequestException
             ("Duplicate languages in contents: " ++ join ", " named)%string)
    /\ forall l,
         count_occ string_dec named l
         = Nat.pred (count_occ string_dec ["en-us"; "zh-tw"; "en-us"; "en-us"] l).
Proof.
  apply (validateContentLanguages_named
           [content_en; content_zh; content_en; content_en] ["en-us"; "zh-tw"]).
  - simpl. intros l [<- | [<- | [<- | [<- | []]]]]; auto.
  - intros Hnd. apply NoDup_cons_iff in Hnd. destruct Hnd as [Hn _].
    apply Hn. simpl. auto.
Defined.

End RejectionNames.

(** ** Handler and class requirements of the guard *)

Section GuardOverride.

Import PermissionGuard.

(** X11.  A permission list declared on the handler replaces the list
    declared on the class: the decision of the guard is then the same
    whatever the class declares, and a permission required by the class
    alone is not required.  With an empty declared list every
    authenticated caller is allowed and a request without caller is
    denied.  A caller that is allowed stays allowed with any larger
    permission list. *)
Theorem canActivate_override (handler : list string) (class : option (list string))
  (caller : option AuthUser.t) :
  canActivate {| ExecutionContext.handler_permissions := Some handler;
                 ExecutionContext.class_permissions := class;
                 ExecutionContext.user := caller |}
  = canActivate {| ExecutionContext.handler_permissions := Some handler;
                   ExecutionContext.class_permissions := None;
                   ExecutionContext.user := caller |}
  /\ (handler = [] ->
      canActivate {| ExecutionContext.handler_permissions := Some handler;
                     ExecutionContext.class_permissions := class;
                     ExecutionContext.user := caller |}
      = match caller with Some _ => true | None => false end)
  /\ (forall u u',
        caller = Some u ->
        (forall p, In p (AuthUser.permissions u) -> In p (AuthUser.permissions u')) ->
        canActivate {| ExecutionContext.handler_permissions := Some handler;
                       ExecutionContext.class_permissions := class;
                       ExecutionContext.user := Some u |} = true ->
        canActivate {| ExecutionContext.handler_permissions := Some handler;
                       ExecutionContext.class_permissions := class;
                       ExecutionContext.user := Some u' |} = true).
Proof.
  split; [reflexivity|]. split.
  - intros ->. destruct caller; reflexivity.
  - intros u u' _ Hsub. unfold canActivate. simpl. unfold every.
    rewrite !forallb_forall. intros Hall p Hp.
    apply includes_In, Hsub, includes_In, Hall, Hp.
Qed.

Lemma canActivate_override_witness :
  canActivate {| ExecutionContext.handler_permissions := Some [];
                 ExecutionContext.class_permissions := Some ["activity:manage"];
                 ExecutionContext.user :=
                   Some {| AuthUser.id := 1%nat; AuthUser.permissions := [];
                           AuthUser.tokenVersion := None |} |}
  = true.
Proof.
  apply (canActivate_override [] (Some ["activity:manage"])
           (Some {| AuthUser.id := 1%nat; AuthUser.permissions := [];
                    AuthUser.tokenVersion := None |})).
  reflexivity.
Defined.

End GuardOverride.

(** * Further properties of the login service *)

Lemma getUserPermissions_run (memberId : Id) (db : Db) :
  AuthService.getUserPermissions memberId db = (inr (permissions_of memberId db), db).
Proof. reflexivity. Qed.

Lemma mapM_withId_map {A B} (g : A -> B) (xs : list A) (db : Db) :
  mapM (fun x => id <- withId ;; ret (id, g x)) xs db
  = (inr (combine (seq (nextId db) (List.length xs)) (map g xs)),
     advance (List.length xs) db).
Proof.
  revert db. induction xs as [|x xs IH]; intros db.
  - simpl. unfold ret, advance. destruct db; reflexivity.
  - simpl. unfold bind at 1. unfold bind at 1. rewrite withId_advance.
    unfold ret at 1. unfold bind at 1. rewrite IH. unfold ret.
    rewrite advance_advance. simpl. f_equal. f_equal. lia.
Qed.

Section LoginRun.

Import AuthService.

Variable env : Env.t.
Variable code : string.
Variable db : Db.
Variable accessToken : string.
Variable githubUser : GithubProfile.t.
Variable githubEmails : list GithubEmail.t.
Variable socialAccounts : list GithubSocial.t.
Variable email : string.

Hypothesis Hcode : Env.validateAuthorizationCode env code = inr accessToken.
Hypothesis Huser : fetchGithub (Env.fetch_user env) "user" accessToken = inr githubUser.
Hypothesis Hemails :
  fetchGithub (Env.fetch_emails env) "user/emails" accessToken = inr githubEmails.
Hypothesis Hsocial :
  fetchGithub (Env.fetch_social env) "user/social_accounts" accessToken
  = inr socialAccounts.
Hypothesis Hemail :
  or_ (GithubProfile.email githubUser)
    (option_map GithubEmail.email (find GithubEmail.primary githubEmails))
  = Some email.
Hypothesis Htruthy : truthy email = true.

(** The [try] block of a login whose requests are all answered and
    whose profile has a usable email. *)
Lemma loginWithGithub_try_run :
  loginWithGithub_try env code db
  = (Env.signAsync env
       (payload_of
          (MemberWithProviders.member
             (fst (login_state githubUser socialAccounts email db)))
          (snd (login_state githubUser socialAccounts email db))),
     snd (login_state githubUser socialAccounts email db)).
Proof.
  unfold loginWithGithub_try.
  unfold bind at 1. unfold lift at 1. rewrite Hcode.
  unfold bind at 1. unfold lift at 1. rewrite Huser.
  unfold bind at 1. unfold lift at 1. rewrite Hemails.
  unfold bind at 1. unfold lift at 1. rewrite Hsocial.
  rewrite Hemail, Htruthy. cbn [negb].
  unfold bind at 1. rewrite withId_advance.
  unfold bind at 1.
  rewrite (mapM_withId_map
             (fun account => (GithubSocial.provider account, GithubSocial.url account))).
  unfold bind at 1. unfold member_findUnique_email at 1. unfold gets at 1.
  unfold login_state.
  change (member (advance (List.length socialAccounts) (advance 1 db)))
    with (member db).
  destruct (find (fun m => String.eqb (Member.email m) email) (member db)) as [m|].
  - unfold bind at 1. unfold bind at 1.
    change (providers_of (Member.id m)
              (advance (List.length socialAccounts) (advance 1 db)))
      with (providers_of (Member.id m) db).
    cbn [MemberWithProviders.providers MemberWithProviders.member].
    destruct (some (fun p => String.eqb (MemberProvider.provider p) "github")
                (providers_of (Member.id m) db)).
    + cbn [negb]. unfold ret at 1. unfold ret at 1. unfold bind at 1.
      rewrite getUserPermissions_run. unfold lift. reflexivity.
    + cbn [negb]. unfold bind at 1. rewrite withId_advance.
      unfold memberProvider_create, modify. unfold ret at 1. unfold bind at 1.
      rewrite getUserPermissions_run. unfold lift. reflexivity.
  - unfold bind at 1. unfold bind at 1. rewrite withId_advance.
    unfold bind at 1. rewrite withId_advance.
    unfold member_create, bind at 1. unfold modify at 1. unfold ret at 1.
    unfold bind at 1. rewrite getUserPermissions_run. unfold lift. reflexivity.
Qed.

Lemma loginWithGithub_run :
  loginWithGithub env code db
  = (match Env.signAsync env
             (payload_of
                (MemberWithProviders.member
                   (fst (login_state githubUser socialAccounts email db)))
                (snd (login_state githubUser socialAccounts email db))) with
     | inr token => inr token
     | inl error =>
         inl (if is_UnauthorizedException error then error
              else UnauthorizedException
                     ("GitHub Authentication Failed: "
                      ++ (if is_Error error then message_of error
                          else "Unknown error"))%string)
     end,
     snd (login_state githubUser socialAccounts email db)).
Proof.
  unfold loginWithGithub, try_catch. rewrite loginWithGithub_try_run.
  destruct (Env.signAsync env _) as [e|token]; [|reflexivity].
  now rewrite loginWithGithub_catch_throws.
Qed.

End LoginRun.

Lemma find_email_spec (email : string) (l : list Member.t) (m : Member.t) :
  find (fun x => String.eqb (Member.email x) email) l = Some m ->
  In m l /\ Member.email m = email.
Proof.
  intros H. apply find_some in H. destruct H as [Hin Heq].
  apply String.eqb_eq in Heq. auto.
Qed.

Lemma some_github_provider (memberId : Id) (db : Db) :
  some (fun p => String.eqb (MemberProvider.provider p) "github")
    (providers_of memberId db) = true
  <-> exists p,
        In p (memberProvider db)
        /\ MemberProvider.memberId p = memberId
        /\ MemberProvider.provider p = "github".
Proof.
  unfold some, providers_of. rewrite existsb_exists. split.
  - intros [p [Hin Hp]]. apply filter_In in Hin. destruct Hin as [Hin Hid].
    apply Nat.eqb_eq in Hid. apply String.eqb_eq in Hp. eauto.
  - intros [p [Hin [Hid Hp]]]. exists p. split.
    + apply filter_In. split; [assumption|]. now apply Nat.eqb_eq.
    + now apply String.eqb_eq.
Qed.

(** The member and provider steps of a login: the member is the one
    found by the email afterwards and is linked to the provider; the
    member table grows by at most the created member. *)
Lemma login_state_facts (githubUser : GithubProfile.t)
  (socialAccounts : list GithubSocial.t) (email : string) (db : Db) :
  let m := MemberWithProviders.member
             (fst (login_state githubUser socialAccounts email db)) in
  let db' := snd (login_state githubUser socialAccounts email db) in
  find (fun x => String.eqb (Member.email x) email) (member db') = Some m
  /\ Member.email m = email
  /\ has_provider "github" m db'
  /\ ((In m (member db) /\ member db' = member db /\ memberLink db' = memberLink db)
      \/ ((forall x, In x (member db) -> Member.email x <> email)
          /\ member db' = member db ++ [m]))
  /\ (exists links, memberProvider db' = memberProvider db ++ links)
  /\ activity db' = activity db /\ activityContent db' = activityContent db.
Proof.
  unfold login_state.
  destruct (find (fun m => String.eqb (Member.email m) email) (member db))
    as [m|] eqn:Hfind.
  - destruct (find_email_spec _ _ _ Hfind) as [Hin Hmail].
    destruct (some (fun p => String.eqb (MemberProvider.provider p) "github")
                (providers_of (Member.id m) db)) eqn:Hgithub; cbn [fst snd].
    + cbn [MemberWithProviders.member]. split; [exact Hfind|]. split; [exact Hmail|].
      split; [now apply some_github_provider|].
      split; [left; auto|]. split; [exists []; now rewrite app_nil_r|]. auto.
    + cbn [MemberWithProviders.member]. split; [exact Hfind|]. split; [exact Hmail|].
      split.
      { eexists.
        split; [simpl; rewrite in_app_iff; right; left; reflexivity
               | split; reflexivity]. }
      split; [left; auto|]. split; [eexists; reflexivity|]. auto.
  - cbn [fst snd MemberWithProviders.member].
    assert (Hnone : forall x, In x (member db) ->
                      String.eqb (Member.email x) email = false).
    { intros x Hx. exact (find_none _ _ Hfind x Hx). }
    split.
    { simpl member. rewrite find_app_last by exact Hnone.
      simpl. now rewrite String.eqb_refl. }
    split; [reflexivity|]. split.
    { eexists.
      split; [simpl; rewrite in_app_iff; right; left; reflexivity
             | split; reflexivity]. }
    split.
    { right. split; [|reflexivity].
      intros x Hx. apply String.eqb_neq. auto. }
    split; [eexists; reflexivity|]. auto.
Qed.

Section LoginEffects.

Import AuthService.

(** What made a login succeed. *)
Lemma loginWithGithub_success (env : Env.t) (code : string) (db db' : Db)
  (token : string) :
  loginWithGithub env code db = (inr token, db') ->
  exists accessToken githubUser githubEmails socialAccounts email,
    Env.validateAuthorizationCode env code = inr accessToken
    /\ fetchGithub (Env.fetch_user env) "user" accessToken = inr githubUser
    /\ fetchGithub (Env.fetch_emails env) "user/emails" accessToken = inr githubEmails
    /\ fetchGithub (Env.fetch_social env) "user/social_accounts" accessToken
       = inr socialAccounts
    /\ or_ (GithubProfile.email githubUser)
         (option_map GithubEmail.email (find GithubEmail.primary githubEmails))
       = Some email
    /\ truthy email = true
    /\ db' = snd (login_state githubUser socialAccounts email db)
    /\ Env.signAsync env
         (payload_of
            (MemberWithProviders.member
               (fst (login_state githubUser socialAccounts email db))) db')
       = inr token.
Proof.
  intros Hrun.
  assert (Hfail : forall e d, loginWithGithub_try env code db = (inl e, d) -> False).
  { intros e d Htry. unfold loginWithGithub, try_catch in Hrun.
    rewrite Htry, loginWithGithub_catch_throws in Hrun. discriminate. }
  destruct (Env.validateAuthorizationCode env code) as [e|accessToken] eqn:Hcode.
  { exfalso. apply (Hfail e db). unfold loginWithGithub_try, bind at 1.
    unfold lift at 1. now rewrite Hcode. }
  destruct (fetchGithub (Env.fetch_user env) "user" accessToken)
    as [e|githubUser] eqn:Huser.
  { exfalso. apply (Hfail e db). unfold loginWithGithub_try, bind at 1.
    unfold lift at 1. rewrite Hcode. unfold bind at 1. unfold lift at 1.
    now rewrite Huser. }
  destruct (fetchGithub (Env.fetch_emails env) "user/emails" accessToken)
    as [e|githubEmails] eqn:Hemails.
  { exfalso. apply (Hfail e db). unfold loginWithGithub_try, bind at 1.
    unfold lift at 1. rewrite Hcode. unfold bind at 1. unfold lift at 1.
    rewrite Huser. unfold bind at 1. unfold lift at 1. now rewrite Hemails. }
  destruct (fetchGithub (Env.fetch_social env) "user/social_accounts" accessToken)
    as [e|socialAccounts] eqn:Hsocial.
  { exfalso. apply (Hfail e db). unfold loginWithGithub_try, bind at 1.
    unfold lift at 1. rewrite Hcode. unfold bind at 1. unfold lift at 1.
    rewrite Huser. unfold bind at 1. unfold lift at 1. rewrite Hemails.
    unfold bind at 1. unfold lift at 1. now rewrite Hsocial. }
  assert (Hmissing :
            (or_ (GithubProfile.email githubUser)
               (option_map GithubEmail.email (find GithubEmail.primary githubEmails))
             = None
             \/ exists email,
                  or_ (GithubProfile.email githubUser)
                    (option_map GithubEmail.email
                       (find GithubEmail.primary githubEmails)) = Some email
                  /\ truthy email = false) ->
            False).
  { intros Hno. apply (Hfail missing_email db).
    unfold loginWithGithub_try, bind at 1.
    unfold lift at 1. rewrite Hcode. unfold bind at 1. unfold lift at 1.
    rewrite Huser. unfold bind at 1. unfold lift at 1. rewrite Hemails.
    unfold bind at 1. unfold lift at 1. rewrite Hsocial.
    destruct Hno as [-> | [email [-> Hfalsy]]]; [reflexivity|].
    now rewrite Hfalsy. }
  destruct (or_ (GithubProfile.email githubUser)
              (option_map GithubEmail.email (find GithubEmail.primary githubEmails)))
    as [email|] eqn:Hemail; [|exfalso; auto].
  destruct (truthy email) eqn:Htruthy; [|exfalso; eauto].
  rewrite (loginWithGithub_run env code db accessToken githubUser githubEmails
             socialAccounts email Hcode Huser Hemails Hsocial Hemail Htruthy) in Hrun.
  injection Hrun as Hres <-.
  exists accessToken, githubUser, githubEmails, socialAccounts, email.
  repeat split; try assumption; try reflexivity.
  destruct (Env.signAsync env _) as [e|t]; [discriminate|congruence].
Qed.

(** X12.  What a successful login leaves behind.  The login has a member
    [m] whose email is the public email of the profile when there is
    one, else the primary email of the account.  After the login [m] is
    the member found by that email and is linked to the provider
    [github]; the token is the signature of the identifier and email of
    [m] and of the permissions [m] has on the resulting store.  No
    member is removed; a member is added only when no stored member had
    the email, and then it is [m] alone; existing provider links are
    kept; the activity tables are untouched. *)
Theorem loginWithGithub_effects (env : Env.t) (code : string) (db db' : Db)
  (token : string) :
  loginWithGithub env code db = (inr token, db') ->
  exists accessToken githubUser githubEmails m,
    Env.validateAuthorizationCode env code = inr accessToken
    /\ fetchGithub (Env.fetch_user env) "user" accessToken = inr githubUser
    /\ fetchGithub (Env.fetch_emails env) "user/emails" accessToken = inr githubEmails
    /\ or_ (GithubProfile.email githubUser)
         (option_map GithubEmail.email (find GithubEmail.primary githubEmails))
       = Some (Member.email m)
    /\ find (fun x => String.eqb (Member.email x) (Member.email m)) (member db')
       = Some m
    /\ has_provider "github" m db'
    /\ Env.signAsync env
         {| JwtPayload.sub := Member.id m;
            JwtPayload.email := Member.email m;
            JwtPayload.permissions := permissions_of (Member.id m) db' |}
       = inr token
    /\ ((In m (member db) /\ member db' = member db)
        \/ ((forall x, In x (member db) -> Member.email x <> Member.email m)
            /\ member db' = member db ++ [m]))
    /\ (exists links, memberProvider db' = memberProvider db ++ links)
    /\ activity db' = activity db /\ activityContent db' = activityContent db.
Proof.
  intros Hrun.
  destruct (loginWithGithub_success env code db db' token Hrun)
    as [accessToken [githubUser [githubEmails [socialAccounts [email
          [Hcode [Huser [Hemails [Hsocial [Hemail [Htruthy [Hdb Hsign]]]]]]]]]]]].
  destruct (login_state_facts githubUser socialAccounts email db)
    as [Hfind [Hmail [Hprov [Hmembers [Hlinks [Hact Hrows]]]]]].
  rewrite <- Hdb in Hfind, Hprov, Hmembers, Hlinks, Hact, Hrows.
  remember (MemberWithProviders.member
              (fst (login_state githubUser socialAccounts email db))) as m eqn:Hm.
  clear Hm Hdb. subst email.
  exists accessToken, githubUser, githubEmails, m.
  split; [assumption|]. split; [assumption|]. split; [assumption|].
  split; [assumption|]. split; [assumption|]. split; [assumption|].
  split; [exact Hsign|]. split; [|auto].
  destruct Hmembers as [[Hin [Hsame _]] | [Hnone Hadd]]; auto.
Qed.

Lemma loginWithGithub_effects_witness :
  exists accessToken githubUser githubEmails m,
    Env.validateAuthorizationCode
      (sample_env (Some "production") (Some "octo@example.org")) "4b1ee5"
    = inr accessToken
    /\ fetchGithub (Env.fetch_user (sample_env (Some "production") (Some "octo@example.org")))
         "user" accessToken = inr githubUser
    /\ fetchGithub (Env.fetch_emails (sample_env (Some "production") (Some "octo@example.org")))
         "user/emails" accessToken = inr githubEmails
    /\ or_ (GithubProfile.email githubUser)
         (option_map GithubEmail.email (find GithubEmail.primary githubEmails))
       = Some (Member.email m)
    /\ find (fun x => String.eqb (Member.email x) (Member.email m))
         (member (snd (loginWithGithub
                         (sample_env (Some "production") (Some "octo@example.org"))
                         "4b1ee5" empty_db)))
       = Some m.
Proof.
  destruct (loginWithGithub_effects
              (sample_env (Some "production") (Some "octo@example.org")) "4b1ee5"
              empty_db
              (snd (loginWithGithub
                      (sample_env (Some "production") (Some "octo@example.org"))
                      "4b1ee5" empty_db))
              "jwt.octo@example.org" eq_refl)
    as [accessToken [githubUser [githubEmails [m [H1 [H2 [H3 [H4 [H5 _]]]]]]]]].
  exists accessToken, githubUser, githubEmails, m. auto.
Defined.


End LoginEffects.


(** ** The development login *)

Section DevLogin.

Import AuthService.




End DevLogin.

(** ** The callback of the provider *)

Lemma loginWithGithub_throws_Error (env : Env.t) (code : string) (db : Db)
  (e : Exception) :
  fst (AuthService.loginWithGithub env code db) = inl e -> is_Error e = true.
Proof.
  unfold AuthService.loginWithGithub, try_catch.
  destruct (AuthService.loginWithGithub_try env code db) as [[e0|t] db'];
    [|discriminate].
  rewrite loginWithGithub_catch_throws. simpl. intros H. injection H as <-.
  destruct e0; reflexivity.
Qed.

Section Callback.

Import AuthController.

(** X15.  The state check of [githubCallback].  Unless the [state] of
    the query and the state cookie are both present, non-empty and
    equal, the answer is [400] with the body [Invalid state]: no cookie
    is set or cleared and the store is untouched, so no login is
    attempted.  When they are, the state cookie is cleared, the login
    runs, and the answer is [200]: after a successful login it sets the
    [access_token] cookie to the token (http-only, secure exactly in
    production mode) and sends the success page; after a failed one it
    sets no cookie and sends the error page with the message of the
    failure.  The handler itself never throws. *)
Theorem githubCallback_state (cenv : ControllerEnv.t) (env : Env.t) (code : string)
  (state storedState : option string) (db : Db) :
  ((forall s, ~ (state = Some s /\ storedState = Some s /\ s <> EmptyString)) ->
   githubCallback cenv env code state storedState db
   = (inr {| HttpResponse.status := 400;
             HttpResponse.cookies := [];
             HttpResponse.cleared := [];
             HttpResponse.body := "Invalid state" |}, db))
  /\ (forall s,
        state = Some s -> storedState = Some s -> s <> EmptyString ->
        exists response,
          githubCallback cenv env code state storedState db
          = (inr response, snd (AuthService.loginWithGithub env code db))
          /\ HttpResponse.status response = 200
          /\ HttpResponse.cleared response = ["github_oauth_state"]
          /\ match fst (AuthService.loginWithGithub env code db) with
             | inr token =>
                 HttpResponse.cookies response
                 = [{| Cookie.name := "access_token";
                       Cookie.value := token;
                       Cookie.httpOnly := true;
                       Cookie.secure := AuthService.NODE_ENV_is env "production";
                       Cookie.sameSite := Some "lax";
                       Cookie.maxAge := 86400000;
                       Cookie.path := "/" |}]
                 /\ HttpResponse.body response
                    = success_page
                        (or_else (ControllerEnv.CLIENT_URL cenv) "http://localhost:3000")
             | inl e =>
                 HttpResponse.cookies response = []
                 /\ HttpResponse.body response
                    = error_page (ControllerEnv.JSON_stringify cenv (message_of e))
                        (or_else (ControllerEnv.CLIENT_URL cenv) "http://localhost:3000")
             end).
Proof.
  split.
  - intros Hbad. unfold githubCallback.
    assert (Hcheck : negb (truthy state) || negb (truthy storedState)
                     || differ state storedState = true).
    { destruct state as [[|c s]|]; try reflexivity.
      destruct storedState as [[|c' s']|]; try reflexivity.
      unfold differ.
      destruct (String.eqb (String c s) (String c' s')) eqn:E; [|reflexivity].
      apply String.eqb_eq in E. exfalso.
      apply (Hbad (String c s)). rewrite E. repeat split. discriminate. }
    rewrite Hcheck. reflexivity.
  - intros s -> -> Hne. unfold githubCallback.
    assert (Hcheck : negb (truthy (Some s)) || negb (truthy (Some s))
                     || differ (Some s) (Some s) = false).
    { destruct s as [|c s]; [congruence|]. unfold differ.
      rewrite String.eqb_refl. reflexivity. }
    rewrite Hcheck. unfold try_catch, bind.
    pose proof (loginWithGithub_throws_Error env code db) as Herror.
    destruct (AuthService.loginWithGithub env code db) as [[e|token] db'];
      cbn [fst snd] in *.
    + rewrite (Herror e eq_refl). eexists. split; [reflexivity|]. simpl. auto.
    + eexists. split; [reflexivity|]. simpl. auto.
Qed.

Lemma githubCallback_state_witness :
  githubCallback {| ControllerEnv.CLIENT_URL := None;
                    ControllerEnv.JSON_stringify := fun s => s |}
    (sample_env (Some "production") (Some "octo@example.org")) "4b1ee5"
    (Some "abc") (Some "abd") empty_db
  = (inr {| HttpResponse.status := 400;
            HttpResponse.cookies := [];
            HttpResponse.cleared := [];
            HttpResponse.body := "Invalid state" |}, empty_db).
Proof.
  apply (githubCallback_state
           {| ControllerEnv.CLIENT_URL := None;
              ControllerEnv.JSON_stringify := fun s => s |}
           (sample_env (Some "production") (Some "octo@example.org")) "4b1ee5"
           (Some "abc") (Some "abd") empty_db).
  intros s [Hs [Ht _]]. congruence.
Defined.

End Callback.

(** ** The role and permission tables are read only *)

Lemma keeps_ret {A} (a : A) : keeps_roles (ret a).
Proof. intros db. auto. Qed.

Lemma keeps_throw {A} (e : Exception) : keeps_roles (@throw A e).
Proof. intros db. auto. Qed.

Lemma keeps_lift {A} (r : Result A) : keeps_roles (lift r).
Proof. intros db. auto. Qed.

Lemma keeps_gets {A} (f : Db -> A) : keeps_roles (gets f).
Proof. intros db. auto. Qed.

Lemma keeps_withId : keeps_roles withId.
Proof. intros db. auto. Qed.

Lemma keeps_modify (f : Db -> Db) :
  (forall db, roleMember (f db) = roleMember db
              /\ rolePermission (f db) = rolePermission db
              /\ permission (f db) = permission db) ->
  keeps_roles (modify f).
Proof. intros Hf db. apply Hf. Qed.

Lemma keeps_bind {A B} (m : M A) (k : A -> M B) :
  keeps_roles m -> (forall a, keeps_roles (k a)) -> keeps_roles (bind m k).
Proof.
  intros Hm Hk db. unfold bind. specialize (Hm db).
  destruct (m db) as [[e|a] db']; cbn [snd] in *; [assumption|].
  destruct (Hk a db') as [H1 [H2 H3]]. destruct Hm as [G1 [G2 G3]].
  repeat split; congruence.
Qed.

Lemma keeps_try_catch {A} (m : M A) (h : Exception -> M A) :
  keeps_roles m -> (forall e, keeps_roles (h e)) -> keeps_roles (try_catch m h).
Proof.
  intros Hm Hh db. unfold try_catch. specialize (Hm db).
  destruct (m db) as [[e|a] db']; cbn [snd] in *; [|assumption].
  destruct (Hh e db') as [H1 [H2 H3]]. destruct Hm as [G1 [G2 G3]].
  repeat split; congruence.
Qed.

Lemma keeps_transaction {A} (m : M A) : keeps_roles m -> keeps_roles (transaction m).
Proof.
  intros Hm db. unfold transaction. specialize (Hm db).
  destruct (m db) as [[e|a] db']; cbn [snd] in *; auto.
Qed.

Lemma keeps_mapM {A B} (f : A -> M B) (xs : list A) :
  (forall x, keeps_roles (f x)) -> keeps_roles (mapM f xs).
Proof.
  intros Hf. induction xs as [|x xs IH]; simpl.
  - apply keeps_ret.
  - apply keeps_bind; [apply Hf|]. intros y.
    apply keeps_bind; [apply IH|]. intros ys. apply keeps_ret.
Qed.

Lemma keeps_activity_update (id : Id) (data : Activity.t -> Activity.t) :
  keeps_roles (activity_update id data).
Proof.
  intros db. unfold activity_update.
  destruct (update_first (fun a => Nat.eqb (Activity.id a) id) data (activity db));
    auto.
Qed.

Lemma keeps_activityContent_upsert (activityId : Id) (lang : string)
  (update : ActivityContent.t -> ActivityContent.t) (create : ActivityContent.t) :
  keeps_roles (activityContent_upsert activityId lang update create).
Proof.
  apply keeps_modify. intros db.
  destruct (update_first (same_key activityId lang) update (activityContent db)); auto.
Qed.

Ltac keeps :=
  repeat first
    [ apply keeps_ret | apply keeps_throw | apply keeps_lift | apply keeps_gets
    | apply keeps_withId | apply keeps_activity_update
    | apply keeps_activityContent_upsert
    | apply keeps_transaction
    | apply keeps_bind; [|intros]
    | apply keeps_try_catch; [|intros]
    | apply keeps_mapM; intros
    | apply keeps_modify; intros; repeat split; reflexivity
    | match goal with
      | |- keeps_roles (match ?x with _ => _ end) => destruct x
      | |- keeps_roles (if ?b then _ else _) => destruct b
      end
    | progress cbv zeta ].

Section ReadOnlyRoles.

Lemma keeps_checkSlugExists (slug : string) :
  keeps_roles (ActivityService.checkSlugExists slug).
Proof.
  unfold ActivityService.checkSlugExists, activity_findUnique_slug. keeps.
Qed.

Lemma keeps_create (dto : CreateActivityDto.t) : keeps_roles (ActivityService.create dto).
Proof.
  unfold ActivityService.create, activity_create.
  apply keeps_bind; [keeps|]. intros _.
  apply keeps_bind; [apply keeps_checkSlugExists|]. intros _. keeps.
Qed.

Lemma keeps_findOneById (id : Id) : keeps_roles (ActivityService.findOneById id).
Proof. unfold ActivityService.findOneById, activity_findUnique_id. keeps. Qed.

Lemma keeps_findOneBySlug (slug : string) (lang : option string) :
  keeps_roles (ActivityService.findOneBySlug slug lang).
Proof.
  unfold ActivityService.findOneBySlug, activity_findUnique_select. keeps.
Qed.

Lemma keeps_update (id : Id) (dto : UpdateActivityDto.t) :
  keeps_roles (ActivityService.update id dto).
Proof.
  unfold ActivityService.update.
  apply keeps_bind; [apply keeps_findOneById|]. intros found.
  apply keeps_bind; [keeps|]. intros _.
  apply keeps_bind.
  { destruct (UpdateActivityDto.slug dto) as [slug|]; [|keeps].
    destruct (truthy slug && negb (String.eqb slug _));
      [apply keeps_checkSlugExists | keeps]. }
  intros _. unfold ActivityService.upsert_content, activity_findUnique_id. keeps.
Qed.

Lemma keeps_getUserPermissions (memberId : Id) :
  keeps_roles (AuthService.getUserPermissions memberId).
Proof.
  unfold AuthService.getUserPermissions, rolePermission_findMany. keeps.
Qed.

Lemma keeps_loginWithGithub (env : Env.t) (code : string) :
  keeps_roles (AuthService.loginWithGithub env code).
Proof.
  unfold AuthService.loginWithGithub. apply keeps_try_catch.
  - unfold AuthService.loginWithGithub_try.
    do 4 (apply keeps_bind; [keeps|]; intros ?).
    cbv zeta.
    destruct (or_ _ _) as [email|]; [|keeps].
    destruct (negb (truthy email)); [keeps|].
    apply keeps_bind; [keeps|]. intros linkId.
    apply keeps_bind; [keeps|]. intros otherSocialLinks.
    apply keeps_bind;
      [unfold member_findUnique_email; keeps|]. intros found.
    apply keeps_bind.
    { unfold member_create, memberProvider_create. keeps. }
    intros user. apply keeps_bind; [apply keeps_getUserPermissions|].
    intros permissions. keeps.
  - intros e. unfold AuthService.loginWithGithub_catch. keeps.
Qed.

Lemma keeps_devLogin (env : Env.t) (email : string) :
  keeps_roles (AuthService.devLogin env email).
Proof.
  unfold AuthService.devLogin.
  destruct (AuthService.NODE_ENV_is env "production"); [keeps|].
  apply keeps_bind; [unfold member_findUnique; keeps|]. intros found.
  apply keeps_bind.
  { unfold member_create. keeps. }
  intros member. apply keeps_bind; [apply keeps_getUserPermissions|].
  intros permissions. keeps.
Qed.

Lemma keeps_githubCallback (cenv : ControllerEnv.t) (env : Env.t) (code : string)
  (state storedState : option string) :
  keeps_roles (AuthController.githubCallback cenv env code state storedState).
Proof.
  unfold AuthController.githubCallback. cbv zeta.
  destruct (negb (truthy state) || negb (truthy storedState)
            || AuthController.differ state storedState); [keeps|].
  apply keeps_try_catch; [|intros e; keeps].
  apply keeps_bind; [apply keeps_loginWithGithub|]. intros token. keeps.
Qed.

Lemma keeps_roles_permissions {A} (m : M A) (memberId : Id) (db : Db) :
  keeps_roles m ->
  permissions_of memberId (snd (m db)) = permissions_of memberId db.
Proof.
  intros Hm. destruct (Hm db) as [H1 [H2 H3]].
  unfold permissions_of, AuthService.getUserPermissions, rolePermission_findMany,
    bind, gets, ret. cbn [fst]. now rewrite H1, H2, H3.
Qed.

(** X16.  No call of the activity service, of the login service or of
    the callback changes the effective permissions of any member,
    whether the call succeeds or fails: these methods never write the
    role and permission tables, which [getUserPermissions] reads. *)
Theorem permissions_untouched (memberId : Id) (db : Db) :
  (forall dto,
     permissions_of memberId (snd (ActivityService.create dto db))
     = permissions_of memberId db)
  /\ (forall id dto,
        permissions_of memberId (snd (ActivityService.update id dto db))
        = permissions_of memberId db)
  /\ (forall id,
        permissions_of memberId (snd (ActivityService.findOneById id db))
        = permissions_of memberId db)
  /\ (forall slug lang,
        permissions_of memberId (snd (ActivityService.findOneBySlug slug lang db))
        = permissions_of memberId db)
  /\ (forall env code,
        permissions_of memberId (snd (AuthService.loginWithGithub env code db))
        = permissions_of memberId db)
  /\ (forall env email,
        permissions_of memberId (snd (AuthService.devLogin env email db))
        = permissions_of memberId db)
  /\ (forall cenv env code state storedState,
        permissions_of memberId
          (snd (AuthController.githubCallback cenv env code state storedState db))
        = permissions_of memberId db).
Proof.
  repeat split; intros; apply keeps_roles_permissions.
  - apply keeps_create.
  - apply keeps_update.
  - apply keeps_findOneById.
  - apply keeps_findOneBySlug.
  - apply keeps_loginWithGithub.
  - apply keeps_devLogin.
  - apply keeps_githubCallback.
Qed.

End ReadOnlyRoles.
